(** * ENS compute gateway: envelope protocol and lookup pipeline

    A shallow embedding of the gateway's JavaScript sources and of three
    of its contracts

      - src/gateway/utils/signer.js, which holds the two modules
        gateway/utils/signer.js (signData, signResult) and
        gateway/utils/envelope.js (canonicalizeJSON, computeDigest,
        createEnvelope, verifyEnvelope);
      - src/gateway/middleware/rateLimit.js (RateLimiter,
        rateLimitMiddleware) and src/gateway/middleware/validation.js
        (validateRequest and its helpers);
      - src/gateway/compute/index.js (executeCompute) and
        src/gateway/monitoring/metrics.js (the recording methods);
      - src/unnamed/part_000, the server module: the middleware stack and
        the handlers of POST /lookup and POST /compute;
      - src/contracts/Verifier.sol (verify), src/contracts/Billing.sol
        (payForCall, subscribe, hasAccess) and
        src/contracts/EnvelopeVerifier.sol (computeDigest);

    followed by the properties of the specification that are stated about
    them and by further properties of the code.

    Conventions of the embedding.
      - A JavaScript string is represented by the bytes of its UTF-8
        encoding (a Rocq [string]); [toUtf8Bytes] is then the identity on
        the underlying bytes.  Only well-formed strings are represented.
      - JavaScript numbers are represented by integers ([Z]); the gateway
        only inspects integers (cache_ttl, timestamps, lengths).  The
        text of a number is all its digits: this is what JavaScript
        writes for an integer that a double holds exactly, one of
        absolute value below 2^53 ([Js.exact_numbers]); a statement
        that depends on the text of a number that a request brings says
        so.
      - An object is an association list of its own properties, in
        insertion order; an own property that is absent reads as
        [VUndef].  The property names that are read with a fixed name
        (node, data, cursor, ...) are not inherited by any value.  Where
        an object serves as a map under a name that a request chooses
        ([computeFunctions], [byMethod]), the properties that it
        inherits from [Object.prototype] are looked up as well
        ([Js.inherited]).
      - The functions of the [ethers] library (keccak256, secp256k1
        signing, the ABI coder), [JSON.parse], the registered compute
        functions and the methods of [Object.prototype] are parameters of
        the development.
      - [Date.now()] is an input: every reading of the clock is given to
        the function that makes it. *)

From Stdlib Require Import ZArith NArith List Bool Ascii String Strings.Byte DecimalString Lia.
From stdpp Require Import base option list gmap strings sorting.

Set Warnings "-register-all".

Local Open Scope Z_scope.

(** ** JavaScript values *)

Module Js.

Inductive value : Type :=
| VUndef
| VNull
| VBool (b : bool)
| VNum (n : Z)
| VStr (s : string)
| VArr (l : list value)
| VObj (l : list (string * value)).

(** [ToBoolean]: the falsy values are undefined, null, false, 0 and the
    empty string. *)
Definition truthy (v : value) : bool :=
  match v with
  | VUndef | VNull => false
  | VBool b => b
  | VNum n => negb (n =? 0)
  | VStr s => negb (String.eqb s "")
  | VArr _ | VObj _ => true
  end.

(** [a || b] *)
Definition or (a b : value) : value := if truthy a then a else b.

(** A destructuring default [{ x = d }]: only [undefined] takes the default. *)
Definition default_to (d v : value) : value :=
  match v with VUndef => d | _ => v end.

(** [typeof v === 'string'] and [typeof v === 'object'] *)
Definition is_string (v : value) : bool :=
  match v with VStr _ => true | _ => false end.

Definition is_object (v : value) : bool :=
  match v with VNull | VArr _ | VObj _ => true | _ => false end.

(** [v !== false] *)
Definition not_false (v : value) : bool :=
  match v with VBool false => false | _ => true end.

(** Property read [o.k] on a value that is not null or undefined; own
    properties only. *)
Fixpoint assoc (k : string) (l : list (string * value)) : value :=
  match l with
  | [] => VUndef
  | (k', v) :: r => if String.eqb k k' then v else assoc k r
  end.

Definition get (k : string) (o : value) : value :=
  match o with
  | VObj l => assoc k l
  | _ => VUndef
  end.

(** Property write [o[k] = v]: replaces in place, or appends a new
    property. *)
Fixpoint set_prop (k : string) (v : value) (l : list (string * value))
  : list (string * value) :=
  match l with
  | [] => [(k, v)]
  | (k', v') :: r =>
      if String.eqb k k' then (k, v) :: r else (k', v') :: set_prop k v r
  end.

(** *** JSON.stringify *)

Definition dquote : string := String "034"%char "".
Definition backslash : string := String "092"%char "".

Definition hex_digit (n : N) : ascii :=
  match n with
  | 0 => "0" | 1 => "1" | 2 => "2" | 3 => "3" | 4 => "4" | 5 => "5"
  | 6 => "6" | 7 => "7" | 8 => "8" | 9 => "9" | 10 => "a" | 11 => "b"
  | 12 => "c" | 13 => "d" | 14 => "e" | _ => "f"
  end%N%char.

(** QuoteJSONString, one code unit at a time. *)
Definition escape_char (c : ascii) : string :=
  let n := N_of_ascii c in
  if (n =? 34)%N then backslash +:+ dquote
  else if (n =? 92)%N then backslash +:+ backslash
  else if (n =? 8)%N then backslash +:+ "b"
  else if (n =? 12)%N then backslash +:+ "f"
  else if (n =? 10)%N then backslash +:+ "n"
  else if (n =? 13)%N then backslash +:+ "r"
  else if (n =? 9)%N then backslash +:+ "t"
  else if (n <? 32)%N then
    backslash +:+ "u00" +:+
      String (hex_digit (n / 16)) (String (hex_digit (n mod 16)) "")
  else String c "".

Fixpoint escape (s : string) : string :=
  match s with
  | EmptyString => EmptyString
  | String c r => escape_char c +:+ escape r
  end.

Definition quote (s : string) : string := dquote +:+ escape s +:+ dquote.

(** The text of a number: the digits of the integer, after a minus sign
    when it is negative.  JavaScript writes this for the integers that
    a double holds exactly. *)
Definition number_text (n : Z) : string :=
  NilZero.string_of_int (Z.to_int n).



Fixpoint join (sep : string) (l : list string) : string :=
  match l with
  | [] => ""
  | [x] => x
  | x :: r => x +:+ sep +:+ join sep r
  end.

(** [JSON.stringify v]: [None] stands for the result [undefined].  An
    undefined array element is written [null]; an undefined property is
    left out. *)
Fixpoint stringify (v : value) : option string :=
  match v with
  | VUndef => None
  | VNull => Some "null"
  | VBool true => Some "true"
  | VBool false => Some "false"
  | VNum n => Some (number_text n)
  | VStr s => Some (quote s)
  | VArr l =>
      Some ("[" +:+ join ","
        ((fix elements (l : list value) : list string :=
            match l with
            | [] => []
            | x :: r =>
                match stringify x with
                | Some t => t
                | None => "null"
                end :: elements r
            end) l) +:+ "]")
  | VObj l =>
      Some ("{" +:+ join ","
        ((fix members (l : list (string * value)) : list string :=
            match l with
            | [] => []
            | (k, x) :: r =>
                match stringify x with
                | Some t => (quote k +:+ ":" +:+ t) :: members r
                | None => members r
                end
            end) l) +:+ "}")
  end.

Fixpoint members (l : list (string * value)) : list string :=
  match l with
  | [] => []
  | (k, x) :: r =>
      match stringify x with
      | Some t => (quote k +:+ ":" +:+ t) :: members r
      | None => members r
      end
  end.

Definition stringify_object (l : list (string * value)) : string :=
  "{" +:+ join "," (members l) +:+ "}".

(** [JSON.stringify] as a value: a string or [undefined]. *)
Definition JSON_stringify (v : value) : value :=
  match stringify v with
  | Some s => VStr s
  | None => VUndef
  end.

(** *** Array.prototype.sort on property names

    The default comparison orders strings by code unit; on the ASCII
    property names used by the gateway this is the byte order. *)
Fixpoint insert_sorted (k : string) (l : list string) : list string :=
  match l with
  | [] => [k]
  | k' :: r => if String.leb k k' then k :: l else k' :: insert_sorted k r
  end.

Definition sort (l : list string) : list string :=
  foldr insert_sorted [] l.

Definition keys (l : list (string * value)) : list string := map fst l.

(** *** Object.prototype

    The names of its properties: every object literal inherits them, so
    that [o[k]] is defined for these names also when [o] has no own
    property [k]. *)
Definition Object_prototype_names : list string :=
  [ "constructor"; "hasOwnProperty"; "isPrototypeOf";
    "propertyIsEnumerable"; "toLocaleString"; "toString"; "valueOf";
    "__proto__"; "__defineGetter__"; "__defineSetter__";
    "__lookupGetter__"; "__lookupSetter__" ].

Definition inherited (k : string) : bool :=
  existsb (String.eqb k) Object_prototype_names.

(** *** ToString, as used by template literals and computed property
    names *)
Fixpoint to_string (v : value) : string :=
  match v with
  | VUndef => "undefined"
  | VNull => "null"
  | VBool true => "true"
  | VBool false => "false"
  | VNum n => number_text n
  | VStr s => s
  | VArr l =>
      join ","
        ((fix elements (l : list value) : list string :=
            match l with
            | [] => []
            | x :: r =>
                match x with
                | VUndef | VNull => ""
                | _ => to_string x
                end :: elements r
            end) l)
  | VObj _ => "[object Object]"
  end.

(** *** String primitives on the UTF-8 representation *)

Definition codes (s : string) : list N := map N_of_ascii (list_ascii_of_string s).
Definition of_codes (l : list N) : string :=
  string_of_list_ascii (map ascii_of_N l).

(** [s.length]: the number of UTF-16 code units, one for each character
    of the basic plane and two for each character beyond it. *)
Definition units_of_byte (n : N) : Z :=
  if ((128 <=? n) && (n <? 192))%N then 0
  else if (240 <=? n)%N then 2
  else 1.

Definition utf16_length (s : string) : Z :=
  fold_right (fun n acc => units_of_byte n + acc) 0 (codes s).

(** [s.startsWith(p)] *)
Definition starts_with (p s : string) : bool := String.prefix p s.

(** [s.replace(/\0/g, '')] *)
Definition remove_nul (s : string) : string :=
  of_codes (filter (fun n => n <> 0%N) (codes s)).

(** The number of bytes of a white space or line terminator character at
    the head of a byte sequence (0 when there is none).  [rev] tells that
    the sequence is read backwards. *)
Definition white_space (rev : bool) (l : list N) : nat :=
  match l with
  | (9 | 10 | 11 | 12 | 13 | 32)%N :: _ => 1
  | a :: b :: r =>
      let '(b1, b2) := if rev then (b, a) else (a, b) in
      if ((b1 =? 194) && (b2 =? 160))%N then 2
      else
        match r with
        | c :: _ =>
            let '(c1, c2, c3) := if rev then (c, b, a) else (a, b, c) in
            if ((c1 =? 225) && (c2 =? 154) && (c3 =? 128))%N then 3
            else if ((c1 =? 226) && (c2 =? 128) &&
                     (((128 <=? c3) && (c3 <=? 138)) || (c3 =? 168) ||
                      (c3 =? 169) || (c3 =? 175)))%N then 3
            else if ((c1 =? 226) && (c2 =? 129) && (c3 =? 159))%N then 3
            else if ((c1 =? 227) && (c2 =? 128) && (c3 =? 128))%N then 3
            else if ((c1 =? 239) && (c2 =? 187) && (c3 =? 191))%N then 3
            else 0
        | [] => 0
        end
  | _ => 0
  end%nat.

Fixpoint strip (rev : bool) (fuel : nat) (l : list N) : list N :=
  match fuel with
  | O => l
  | S f =>
      match white_space rev l with
      | O => l
      | n => strip rev f (drop n l)
      end
  end.

(** [s.trim()] *)
Definition trim (s : string) : string :=
  let l := codes s in
  let l := strip false (length l) l in
  let l := List.rev (strip true (length l) (List.rev l)) in
  of_codes l.

(** [s.substring(0, n)] when [n] does not fall inside a surrogate pair:
    whole characters are taken while they fit in [n] code units. *)
Fixpoint take_units (fuel : nat) (n : Z) (l : list N) : list N :=
  match fuel, l with
  | S f, a :: r =>
      let size : nat :=
        if (a <? 128)%N then 1 else if (a <? 224)%N then 2
        else if (a <? 240)%N then 3 else 4 in
      let units := units_of_byte a in
      if (units <=? n)%Z
      then take size l ++ take_units f (n - units)%Z (drop size l)
      else []
  | _, _ => []
  end%nat.

Definition substring0 (s : string) (n : Z) : string :=
  let l := codes s in of_codes (take_units (length l) n l).

End Js.

Import Js.

(** ** Byte strings and their hexadecimal form *)

Definition bytes := list byte.

Definition toUtf8Bytes (s : string) : bytes := list_byte_of_string s.

Module Hex.

Definition nibble (c : ascii) : option N :=
  let n := N_of_ascii c in
  if (48 <=? n)%N && (n <=? 57)%N then Some (n - 48)%N
  else if (97 <=? n)%N && (n <=? 102)%N then Some (n - 87)%N
  else if (65 <=? n)%N && (n <=? 70)%N then Some (n - 55)%N
  else None.

Fixpoint digits (b : bytes) : string :=
  match b with
  | [] => ""
  | x :: r =>
      let n := Byte.to_N x in
      String (hex_digit (n / 16)) (String (hex_digit (n mod 16)) (digits r))
  end.

(** [ethers.hexlify]: lower-case digits after the prefix 0x. *)
Definition hexlify (b : bytes) : string := "0x" +:+ digits b.

Fixpoint undigits (s : string) : option bytes :=
  match s with
  | EmptyString => Some []
  | String hi (String lo r) =>
      match nibble hi, nibble lo, undigits r with
      | Some h, Some l, Some t =>
          match Byte.of_N (16 * h + l) with
          | Some x => Some (x :: t)
          | None => None
          end
      | _, _, _ => None
      end
  | String _ EmptyString => None
  end.

(** [ethers.getBytes] on a string: [None] when it throws. *)
Definition getBytes (s : string) : option bytes :=
  match s with
  | String "0" (String "x" r) => undigits r
  | _ => None
  end.

End Hex.

(** ** Completions: a call returns normally or throws *)

Record error := mkError { err_name : string; err_message : string }.

Inductive completion (A : Type) : Type :=
| Normal (a : A)
| Throw (e : error).
Arguments Normal {A} a.
Arguments Throw {A} e.

Definition bind {A B : Type} (c : completion A) (k : A -> completion B)
  : completion B :=
  match c with
  | Normal a => k a
  | Throw e => Throw e
  end.

Notation "'let*' x ':=' c 'in' k" := (bind c (fun x => k))
  (at level 10, x name, c at level 100, k at level 200).

Definition of_option {A : Type} (e : error) (o : option A) : completion A :=
  match o with
  | Some a => Normal a
  | None => Throw e
  end.

(** ** The ethers library, as an interface *)

(** [ethers.Signature]: the two 32-byte halves and the recovery value. *)
Record Signature := mkSignature { sig_r : bytes; sig_s : bytes; sig_v : Z }.

(** Solidity types handed to [AbiCoder.encode] and [AbiCoder.decode]. *)
Inductive abi_type : Type :=
| TString
| TBytes
| TBytes32
| TUint256
| TTuple (ts : list abi_type).

Class Ethers : Type := {
  (** [ethers.Wallet], its [signingKey.sign] and its [address] *)
  wallet : Type;
  signingKey_sign : wallet -> bytes -> Signature;
  wallet_address : wallet -> string;
  (** keccak-256 of a byte string: 32 bytes *)
  keccak256 : bytes -> bytes;
  (** [ethers.recoverAddress digest signature], the signature in its
      65-byte form *)
  recoverAddress : bytes -> bytes -> string;
  (** [AbiCoder.defaultAbiCoder().encode types values]: hexadecimal text,
      or an exception when a value does not fit its type *)
  abi_encode : list abi_type -> list value -> completion string;
  (** [AbiCoder.defaultAbiCoder().decode types data] *)
  abi_decode : list abi_type -> string -> completion (list value);
  (** whether [ethers.namehash name] returns (it throws on a name that
      does not normalise) *)
  namehash_accepts : string -> bool;
  (** whether [ethers.toUtf8String] accepts the bytes (it throws on a
      malformed sequence) *)
  utf8_valid : bytes -> bool
}.

(** The JavaScript host and the registered compute functions. *)
Class Host : Type := {
  (** [JSON.parse text]; throws a SyntaxError *)
  JSON_parse : string -> completion value;
  (** [new Date(ms).toISOString()] *)
  toISOString : Z -> string;
  (** gateway/compute/pricefeed.js, daovotes.js, nftfloor.js: [compute] *)
  pricefeed_compute : value -> completion value;
  daovotes_compute : value -> completion value;
  nftfloor_compute : value -> completion value;
  (** [f(params)] for [f] the property of [Object.prototype] of the
      given name, called as a function (without a receiver): what the
      call returns, or the TypeError of a method that needs a receiver
      and of a property that is not a function.  (A call that returns
      the wrapper object of a primitive value has no result among the
      values represented here.) *)
  Object_prototype_call : string -> value -> completion value
}.

(** The value of a byte string read as a big-endian number. *)
Definition be_value (b : bytes) : Z :=
  fold_left (fun acc x => 256 * acc + Z.of_N (Byte.to_N x)) b 0.

(** The order of the group of secp256k1. *)
Definition secp256k1_n : Z :=
  0xFFFFFFFFFFFFFFFFFFFFFFFFFFFFFFFEBAAEDCE6AF48A03BBFD25E8CD0364141.

Definition signature_bytes (sg : Signature) : bytes :=
  sig_r sg ++ sig_s sg ++
    [match Byte.of_N (Z.to_N (sig_v sg)) with Some b => b | None => x00 end].

(** What the gateway relies on from the library (ethers v6): keccak-256
    yields 32 bytes; [SigningKey.sign] on a 32-byte digest yields r and s
    of 32 bytes each, s in the lower half of the group order, and v equal
    to 27 or 28; and [recoverAddress] on that digest and signature yields
    the address of the signing key. *)
Class EthersLaws (E : Ethers) : Prop := {
  keccak256_length : forall b, length (keccak256 b) = 32%nat;
  sign_r_length : forall w h,
    length h = 32%nat -> length (sig_r (signingKey_sign w h)) = 32%nat;
  sign_s_length : forall w h,
    length h = 32%nat -> length (sig_s (signingKey_sign w h)) = 32%nat;
  sign_v_range : forall w h,
    length h = 32%nat ->
    sig_v (signingKey_sign w h) = 27 \/ sig_v (signingKey_sign w h) = 28;
  sign_low_s : forall w h,
    length h = 32%nat ->
    be_value (sig_s (signingKey_sign w h)) <= secp256k1_n / 2;
  recover_signed : forall w h,
    length h = 32%nat ->
    recoverAddress h (signature_bytes (signingKey_sign w h)) = wallet_address w
}.

(** [ethers.toBeHex v width] as bytes: big endian on [width] bytes; throws
    when the value does not fit. *)
Fixpoint be_bytes (width : nat) (v : Z) : bytes :=
  match width with
  | O => []
  | S w =>
      be_bytes w (v / 256) ++
        [match Byte.of_N (Z.to_N (v mod 256)) with
         | Some b => b
         | None => x00
         end]
  end.

Definition toBeHex (v : Z) (width : nat) : completion bytes :=
  if (0 <=? v) && (v <? 256 ^ Z.of_nat width)
  then Normal (be_bytes width v)
  else Throw (mkError "RangeError" "value exceeds width").

(** The EIP-191 prefix for a 32-byte message:
    "\x19Ethereum Signed Message:\n32". *)
Definition eip191_prefix : string :=
  String "025"%char ("Ethereum Signed Message:" +:+ String "010"%char "32").

(** ** gateway/utils/envelope.js (in src/gateway/utils/signer.js) *)

Module Envelope.

Record t := mk {
  name : value;
  method : value;
  params : value;
  result : value;
  cursor : value;
  prev_digest : value;
  meta : value;
  cache_ttl : value;
  digest : value;
  signature : value
}.

(** The argument object of [createEnvelope]; a key that is not given is
    [VUndef]. *)
Record args := mkArgs {
  a_name : value;
  a_method : value;
  a_params : value;
  a_result : value;
  a_cursor : value;
  a_prevDigest : value;
  a_meta : value;
  a_cacheTtl : value
}.

End Envelope.

(** [canonicalizeJSON]: the keys are sorted, the properties are copied
    into a fresh object in that order, and the object is serialised. *)
Definition canonicalizeJSON (obj : list (string * value)) : string :=
  let sorted :=
    fold_left (fun acc key => set_prop key (assoc key obj) acc)
      (Js.sort (keys obj)) [] in
  stringify_object sorted.

(** The object literal [canonical] of [computeDigest]. *)
Definition canonical (e : Envelope.t) : list (string * value) :=
  [ ("cache_ttl", Js.or (Envelope.cache_ttl e) (VNum 0));
    ("cursor", Js.or (Envelope.cursor e) VNull);
    ("meta", Js.or (Envelope.meta e) (VStr ""));
    ("method", Js.or (Envelope.method e) (VStr ""));
    ("name", Js.or (Envelope.name e) (VStr ""));
    ("params", Js.or (Envelope.params e) (VStr ""));
    ("prev_digest", Js.or (Envelope.prev_digest e) VNull);
    ("result", Js.or (Envelope.result e) (VStr "")) ].

(** The string that is hashed. *)
Definition digest_preimage (e : Envelope.t) : string :=
  canonicalizeJSON (canonical e).

Definition computeDigest `{Ethers} (e : Envelope.t) : string :=
  let json := digest_preimage e in
  Hex.hexlify (keccak256 (toUtf8Bytes json)).

(** [typeof x === 'string' ? x : JSON.stringify(x)] *)
Definition as_text (x : value) : value :=
  if is_string x then x else JSON_stringify x.

(** The object literal [envelope] of [createEnvelope], before the digest
    and the signature are attached. *)
Definition envelope_content (p : Envelope.args) : Envelope.t :=
  let cursor := default_to VNull (Envelope.a_cursor p) in
  let prevDigest := default_to VNull (Envelope.a_prevDigest p) in
  let meta := default_to (VObj []) (Envelope.a_meta p) in
  let cacheTtl := default_to (VNum 30) (Envelope.a_cacheTtl p) in
  {| Envelope.name := Envelope.a_name p;
     Envelope.method := Envelope.a_method p;
     Envelope.params := as_text (Envelope.a_params p);
     Envelope.result := as_text (Envelope.a_result p);
     Envelope.cursor := Js.or cursor VNull;
     Envelope.prev_digest := Js.or prevDigest VNull;
     Envelope.meta := as_text meta;
     Envelope.cache_ttl := cacheTtl;
     Envelope.digest := VUndef;
     Envelope.signature := VUndef |}.

Definition set_digest (d : value) (e : Envelope.t) : Envelope.t :=
  {| Envelope.name := Envelope.name e;
     Envelope.method := Envelope.method e;
     Envelope.params := Envelope.params e;
     Envelope.result := Envelope.result e;
     Envelope.cursor := Envelope.cursor e;
     Envelope.prev_digest := Envelope.prev_digest e;
     Envelope.meta := Envelope.meta e;
     Envelope.cache_ttl := Envelope.cache_ttl e;
     Envelope.digest := d;
     Envelope.signature := Envelope.signature e |}.

Definition set_signature (s : value) (e : Envelope.t) : Envelope.t :=
  {| Envelope.name := Envelope.name e;
     Envelope.method := Envelope.method e;
     Envelope.params := Envelope.params e;
     Envelope.result := Envelope.result e;
     Envelope.cursor := Envelope.cursor e;
     Envelope.prev_digest := Envelope.prev_digest e;
     Envelope.meta := Envelope.meta e;
     Envelope.cache_ttl := Envelope.cache_ttl e;
     Envelope.digest := Envelope.digest e;
     Envelope.signature := s |}.

(** The message hash that is signed for a digest given in hexadecimal. *)
Definition eip191_hash `{Ethers} (digest : string) : completion bytes :=
  let* h := of_option (mkError "TypeError" "invalid BytesLike value")
              (Hex.getBytes digest) in
  Normal (keccak256 (toUtf8Bytes eip191_prefix ++ h)).

(** [ethers.concat([r, s, toBeHex(v, 1)])] *)
Definition serialize_signature (sg : Signature) : completion string :=
  let* v := toBeHex (sig_v sg) 1 in
  Normal (Hex.hexlify (sig_r sg ++ sig_s sg ++ v)).

Definition createEnvelope `{Ethers} (p : Envelope.args) (w : wallet)
  : completion Envelope.t :=
  let envelope := envelope_content p in
  let digest := computeDigest envelope in
  let envelope := set_digest (VStr digest) envelope in
  let* messageHash := eip191_hash digest in
  let signature := signingKey_sign w messageHash in
  let* sig := serialize_signature signature in
  Normal (set_signature (VStr sig) envelope).

(** [JSON.stringify(v)] where the result is used as a string; [null]
    stands in for the result [undefined]. *)
Definition json_text (v : value) : string :=
  match stringify v with
  | Some t => t
  | None => "null"
  end.

(** *** The canonical form in the words of the specification

    Section 4.A: a JSON object with the keys in ASCII-lexicographic
    order (cache_ttl, cursor, meta, method, name, params, prev_digest,
    result), no whitespace, exactly one comma between fields.  A string
    is written between double quotes with its content unescaped, an
    absent cursor or prev_digest is the literal null, and cache_ttl is
    written in base 10.  (The fields of an envelope are strings, cache_ttl
    a number; any other value is written as JSON writes it.) *)
Definition quoted (s : string) : string := dquote +:+ s +:+ dquote.

Definition canonical_value (v : value) : string :=
  match v with
  | VStr s => quoted s
  | VUndef | VNull => "null"
  | _ => json_text v
  end.

Definition canonical_field (k : string) (v : value) : string :=
  quoted k +:+ ":" +:+ canonical_value v.

Definition canonical_json (e : Envelope.t) : string :=
  "{" +:+ canonical_field "cache_ttl" (Envelope.cache_ttl e) +:+
  "," +:+ canonical_field "cursor" (Envelope.cursor e) +:+
  "," +:+ canonical_field "meta" (Envelope.meta e) +:+
  "," +:+ canonical_field "method" (Envelope.method e) +:+
  "," +:+ canonical_field "name" (Envelope.name e) +:+
  "," +:+ canonical_field "params" (Envelope.params e) +:+
  "," +:+ canonical_field "prev_digest" (Envelope.prev_digest e) +:+
  "," +:+ canonical_field "result" (Envelope.result e) +:+ "}".

(** *** contracts/EnvelopeVerifier.sol: computeDigest

    The contract rebuilds the preimage from the fields of the struct
    [Envelope] (contracts/interfaces/IComputeResolver.sol), which the
    gateway sends as the tuple of the wire format: the cursor is the
    empty string and the prev_digest 32 zero bytes when they are
    absent. *)
Module EnvelopeVerifier.

Record Envelope := mk {
  name : string;
  method : string;
  params : string;
  result : string;
  cursor : string;
  prevDigest : bytes;
  meta : string;
  cacheTtl : Z;
  digest : bytes;
  signature : bytes
}.

Definition _quoteString (str : string) : string := dquote +:+ str +:+ dquote.

(** The digits of [value], the last one first, before [buffer]; a
    uint256 has at most 78 of them. *)
Fixpoint digits (fuel : nat) (value : Z) (buffer : string) : string :=
  match fuel with
  | O => buffer
  | S f =>
      if value =? 0 then buffer
      else digits f (value / 10)
             (String (ascii_of_N (Z.to_N (48 + value mod 10))) buffer)
  end.

Definition _uintToString (value : Z) : string :=
  if value =? 0 then "0" else digits 78 value "".

Definition _bytes32ToHexString (value : bytes) : string := Hex.hexlify value.

(** The bytes [canonical] of [computeDigest], as a string. *)
Definition canonical (envelope : Envelope) : string :=
  "{" +:+ dquote +:+ "cache_ttl" +:+ dquote +:+ ":" +:+
  _uintToString (cacheTtl envelope) +:+
  "," +:+ dquote +:+ "cursor" +:+ dquote +:+ ":" +:+
  (if String.eqb (cursor envelope) "" then "null"
   else _quoteString (cursor envelope)) +:+
  "," +:+ dquote +:+ "meta" +:+ dquote +:+ ":" +:+
  _quoteString (meta envelope) +:+
  "," +:+ dquote +:+ "method" +:+ dquote +:+ ":" +:+
  _quoteString (method envelope) +:+
  "," +:+ dquote +:+ "name" +:+ dquote +:+ ":" +:+
  _quoteString (name envelope) +:+
  "," +:+ dquote +:+ "params" +:+ dquote +:+ ":" +:+
  _quoteString (params envelope) +:+
  "," +:+ dquote +:+ "prev_digest" +:+ dquote +:+ ":" +:+
  (if forallb (fun b => Byte.eqb b x00) (prevDigest envelope) then "null"
   else _bytes32ToHexString (prevDigest envelope)) +:+
  "," +:+ dquote +:+ "result" +:+ dquote +:+ ":" +:+
  _quoteString (result envelope) +:+ "}".

Definition computeDigest `{Ethers} (envelope : Envelope) : bytes :=
  keccak256 (toUtf8Bytes (canonical envelope)).

End EnvelopeVerifier.

(** An envelope with one content field replaced. *)
Definition with_cursor (c : value) (e : Envelope.t) : Envelope.t :=
  {| Envelope.name := Envelope.name e;
     Envelope.method := Envelope.method e;
     Envelope.params := Envelope.params e;
     Envelope.result := Envelope.result e;
     Envelope.cursor := c;
     Envelope.prev_digest := Envelope.prev_digest e;
     Envelope.meta := Envelope.meta e;
     Envelope.cache_ttl := Envelope.cache_ttl e;
     Envelope.digest := Envelope.digest e;
     Envelope.signature := Envelope.signature e |}.

Definition with_prev_digest (d : value) (e : Envelope.t) : Envelope.t :=
  {| Envelope.name := Envelope.name e;
     Envelope.method := Envelope.method e;
     Envelope.params := Envelope.params e;
     Envelope.result := Envelope.result e;
     Envelope.cursor := Envelope.cursor e;
     Envelope.prev_digest := d;
     Envelope.meta := Envelope.meta e;
     Envelope.cache_ttl := Envelope.cache_ttl e;
     Envelope.digest := Envelope.digest e;
     Envelope.signature := Envelope.signature e |}.

Definition with_cache_ttl (n : value) (e : Envelope.t) : Envelope.t :=
  {| Envelope.name := Envelope.name e;
     Envelope.method := Envelope.method e;
     Envelope.params := Envelope.params e;
     Envelope.result := Envelope.result e;
     Envelope.cursor := Envelope.cursor e;
     Envelope.prev_digest := Envelope.prev_digest e;
     Envelope.meta := Envelope.meta e;
     Envelope.cache_ttl := n;
     Envelope.digest := Envelope.digest e;
     Envelope.signature := Envelope.signature e |}.

(** ** gateway/middleware/validation.js *)

Definition is_label_char (c : ascii) : bool :=
  let n := N_of_ascii c in
  (((48 <=? n) && (n <=? 57)) || ((65 <=? n) && (n <=? 90)) ||
   ((97 <=? n) && (n <=? 122)) || (n =? 45))%N.

Definition is_letter (lower : ascii) (c : ascii) : bool :=
  let n := N_of_ascii c in
  ((n =? N_of_ascii lower) || (n + 32 =? N_of_ascii lower))%N.

(** The tail [\.eth$] under the flag [i]. *)
Definition dot_eth (s : string) : bool :=
  match s with
  | String d (String e (String t (String h EmptyString))) =>
      Ascii.eqb d "." && is_letter "e" e && is_letter "t" t && is_letter "h" h
  | _ => false
  end.

(** [/^[a-z0-9-]+\.eth$/i.test(s)] *)
Fixpoint ens_regex (s : string) : bool :=
  match s with
  | EmptyString => false
  | String c r => is_label_char c && (dot_eth r || ens_regex r)
  end.

Definition isValidENSName (name : value) : bool :=
  match name with
  | VStr s =>
      if String.eqb s "" then false
      else ens_regex s && (utf16_length s <=? 255)
  | _ => false
  end.

Definition isValidNode `{Ethers} (node : value) : bool :=
  if negb (truthy node) then false
  else
    match node with
    | VStr s =>
        if starts_with "0x" s then utf16_length s =? 66
        else namehash_accepts s
    | _ => false
    end.

Definition sanitizeString (input : value) (maxLength : Z) : string :=
  match input with
  | VStr s =>
      let sanitized := trim (remove_nul s) in
      if maxLength <? utf16_length sanitized
      then substring0 sanitized maxLength
      else sanitized
  | _ => ""
  end.

(** ** gateway/middleware/rateLimit.js *)

Module RateLimiter.

(** The [store] maps a key to the array of the times of its admitted
    requests.  A key is a string or [undefined] ([None]). *)
Record t := mk {
  windowMs : Z;
  maxRequests : Z;
  store : gmap (option string) (list Z)
}.

(** [new RateLimiter({ windowMs, maxRequests })]: a zero option takes the
    default. *)
Definition new (w m : Z) : t :=
  mk (if w =? 0 then 60000 else w) (if m =? 0 then 100 else m) ∅.

(** [while (requests.length > 0 && requests[0] < windowStart) requests.shift()] *)
Fixpoint evict (windowStart : Z) (requests : list Z) : list Z :=
  match requests with
  | [] => []
  | t0 :: r => if t0 <? windowStart then evict windowStart r else requests
  end.

Definition requests_of (l : t) (key : option string) : list Z :=
  match store l !! key with
  | Some requests => requests
  | None => []
  end.

(** [check(key)] at the time [now]: the answer and the limiter after the
    call. *)
Definition check (l : t) (key : option string) (now : Z) : bool * t :=
  let windowStart := now - windowMs l in
  let requests := evict windowStart (requests_of l key) in
  if maxRequests l <=? Z.of_nat (length requests)
  then (false, mk (windowMs l) (maxRequests l) (<[key := requests]> (store l)))
  else (true, mk (windowMs l) (maxRequests l)
                (<[key := requests ++ [now]]> (store l))).

(** [remaining(key)] *)
Definition remaining (l : t) (key : option string) (now : Z) : Z * t :=
  let windowStart := now - windowMs l in
  match store l !! key with
  | None => (maxRequests l, l)
  | Some requests =>
      let requests := evict windowStart requests in
      (Z.max 0 (maxRequests l - Z.of_nat (length requests)),
       mk (windowMs l) (maxRequests l) (<[key := requests]> (store l)))
  end.

(** [reset(key)] *)
Definition reset (l : t) (key : option string) : t :=
  mk (windowMs l) (maxRequests l) (delete key (store l)).

(** [cleanup()] *)
Definition cleanup (l : t) (now : Z) : t :=
  let windowStart := now - windowMs l in
  mk (windowMs l) (maxRequests l)
    (omap (fun requests =>
             match evict windowStart requests with
             | [] => None
             | r => Some r
             end) (store l)).

End RateLimiter.

Definition ipRateLimiter : RateLimiter.t := RateLimiter.new 60000 100.
Definition apiKeyRateLimiter : RateLimiter.t := RateLimiter.new 60000 1000.

(** ** Runs of a rate limiter

    The calls that the gateway makes on one limiter: [check] and
    [remaining] from the middleware, [cleanup] from the timer, each at
    the time that [Date.now()] gives it. *)
Inductive limiter_call : Type :=
| Check (key : option string) (now : Z)
| Remaining (key : option string) (now : Z)
| Cleanup (now : Z).

Definition call_time (c : limiter_call) : Z :=
  match c with
  | Check _ now | Remaining _ now | Cleanup now => now
  end.

(** The clock does not go backwards. *)
Fixpoint monotone (from : Z) (calls : list limiter_call) : bool :=
  match calls with
  | [] => true
  | c :: r => (from <=? call_time c) && monotone (call_time c) r
  end.

(** The limiter after a call, and the time of the request when the call
    admits a request of the key [k]. *)
Definition limiter_step (k : option string) (l : RateLimiter.t)
    (c : limiter_call) : list Z * RateLimiter.t :=
  match c with
  | Check key now =>
      let '(ok, l') := RateLimiter.check l key now in
      (if ok && bool_decide (key = k) then [now] else [], l')
  | Remaining key now => ([], snd (RateLimiter.remaining l key now))
  | Cleanup now => ([], RateLimiter.cleanup l now)
  end.

(** The times of the admitted requests of the key [k], in the order of
    the calls. *)
Fixpoint admitted (k : option string) (l : RateLimiter.t)
    (calls : list limiter_call) : list Z :=
  match calls with
  | [] => []
  | c :: r =>
      let '(a, l') := limiter_step k l c in
      a ++ admitted k l' r
  end.

(** The number of the times of [l] in the interval from [a] to [a + w],
    both included. *)
Definition count_within (a w : Z) (l : list Z) : Z :=
  Z.of_nat (length (List.filter (fun t => (a <=? t) && (t <=? a + w)) l)).

(** ** Notions used to state the sliding window *)

(** Every element is at most the ones after it. *)
Fixpoint ascending (l : list Z) : Prop :=
  match l with
  | [] => True
  | x :: r => (forall y, In y r -> x <= y) /\ ascending r
  end.

(** The times of [l] that are not before the cut [c]. *)
Definition kept (c : Z) (l : list Z) : list Z :=
  List.filter (fun t => c <=? t) l.

(** Every admitted request (latest first) found fewer than [n] admitted
    requests in the window before it. *)
Fixpoint spaced (w n : Z) (history : list Z) : Prop :=
  match history with
  | [] => True
  | t :: earlier =>
      Z.of_nat (length (kept (t - w) earlier)) < n /\ spaced w n earlier
  end.

(** The limiter agrees with the admitted requests [chron] of the key [k]
    (oldest first) at a time [T]: it stores those of them that are not
    older than some cut [c], which is at most [T - w]. *)
Definition consistent (w n : Z) (k : option string) (l : RateLimiter.t)
    (chron : list Z) (T : Z) : Prop :=
  RateLimiter.windowMs l = w /\
  RateLimiter.maxRequests l = n /\
  ascending chron /\
  (forall t, In t chron -> t <= T) /\
  (exists c, c <= T - w /\ RateLimiter.requests_of l k = kept c chron) /\
  spaced w n (rev chron).

(** ** gateway/monitoring/metrics.js *)

Module Metrics.

Record method_stats := mkStats { m_total : Z; m_success : Z; m_errors : Z }.

Record t := mk {
  total : Z;
  success : Z;
  errors : Z;
  byMethod : gmap string method_stats;
  latency_sum : Z;
  latency_count : Z;
  (** [distribution]: the counter of each bucket [le_b], then [le_inf] *)
  distribution : list (Z * Z);
  le_inf : Z;
  cache_hits : Z;
  cache_misses : Z;
  signatures_generated : Z;
  signatures_verified : Z;
  signatures_failed : Z
}.

Definition buckets : list Z := [10; 50; 100; 500; 1000; 5000].

(** [new Metrics()] *)
Definition new : t :=
  mk 0 0 0 ∅ 0 0 (map (fun b => (b, 0)) buckets) 0 0 0 0 0 0.

(** [byMethod] holds the own properties of the object.  Under a name
    that the object inherits, [byMethod[method]] is the inherited
    property: no own property is made, and the counts are written on the
    inherited object. *)
Definition recordRequest (method : string) (ok : bool) (latency : Z) (m : t)
  : t :=
  let stats :=
    match byMethod m !! method with
    | Some st => st
    | None => mkStats 0 0 0
    end in
  let stats :=
    mkStats (m_total stats + 1)
      (if ok then m_success stats + 1 else m_success stats)
      (if ok then m_errors stats else m_errors stats + 1) in
  mk (total m + 1)
     (if ok then success m + 1 else success m)
     (if ok then errors m else errors m + 1)
     (if inherited method then byMethod m
      else <[method := stats]> (byMethod m))
     (latency_sum m + latency)
     (latency_count m + 1)
     (map (fun '(b, c) => (b, if latency <=? b then c + 1 else c))
        (distribution m))
     (le_inf m + 1)
     (cache_hits m) (cache_misses m)
     (signatures_generated m) (signatures_verified m) (signatures_failed m).

Definition recordSignatureGenerated (m : t) : t :=
  mk (total m) (success m) (errors m) (byMethod m) (latency_sum m)
     (latency_count m) (distribution m) (le_inf m) (cache_hits m)
     (cache_misses m) (signatures_generated m + 1) (signatures_verified m)
     (signatures_failed m).

End Metrics.

(** ** gateway/compute/index.js *)

(** The object [computeFunctions]: its own properties. *)
Definition computeFunctions `{Host}
  : list (string * (value -> completion value)) :=
  [ ("pricefeed", pricefeed_compute);
    ("daovotes", daovotes_compute);
    ("nftfloor", nftfloor_compute) ].

Fixpoint lookup_function {F : Type} (key : string) (l : list (string * F))
  : option F :=
  match l with
  | [] => None
  | (k, f) :: r => if String.eqb key k then Some f else lookup_function key r
  end.

(** ToPropertyKey on a value that came out of JSON: the string that
    [to_string] gives, except that the conversion of an object calls
    its [toString], so that an object with an own property of that name
    (which is not callable) has no primitive value.  The elements of an
    array are converted the same way. *)
Fixpoint property_key (v : value) : completion string :=
  match v with
  | VObj l =>
      if existsb (String.eqb "toString") (keys l)
      then Throw (mkError "TypeError"
                    "Cannot convert object to primitive value")
      else Normal (to_string v)
  | VArr l =>
      let* _ :=
        (fix elements (l : list value) : completion string :=
           match l with
           | [] => Normal ""
           | x :: r => let* _ := property_key x in elements r
           end) l in
      Normal (to_string v)
  | _ => Normal (to_string v)
  end.

(** [computeFunctions[key]]: an own property, or a property that the
    object inherits from [Object.prototype]; [None] for [undefined].
    The inherited properties are functions or objects, none is falsy. *)
Definition compute_property `{Host} (key : string)
  : option (value -> completion value) :=
  match lookup_function key computeFunctions with
  | Some computeFn => Some computeFn
  | None =>
      if inherited key then Some (Object_prototype_call key) else None
  end.

Definition unknown_function (functionName : value) : error :=
  mkError "Error" ("Unknown compute function: " +:+ to_string functionName).

Definition executeCompute `{Host} (functionName : value) (params : value)
  : completion value :=
  let params := default_to (VObj []) params in
  let* key := property_key functionName in
  match compute_property key with
  | Some computeFn => computeFn params
  | None => Throw (unknown_function functionName)
  end.

(** The name under which [executeCompute] finds a function to call, if
    it finds one. *)
Definition called `{Host} (functionName : value) : option string :=
  match property_key functionName with
  | Normal key =>
      match compute_property key with
      | Some _ => Some key
      | None => None
      end
  | Throw _ => None
  end.

Definition listFunctions `{Host} : list string := map fst computeFunctions.

(** ** gateway/utils/signer.js (in src/gateway/utils/signer.js) *)

Definition signData `{Ethers} (dataBytes : bytes) (w : wallet)
  : completion string :=
  let dataHash := Hex.hexlify (keccak256 dataBytes) in
  let* messageHash := eip191_hash dataHash in
  let signature := signingKey_sign w messageHash in
  serialize_signature signature.

Definition signResult `{Ethers} (result : value) (w : wallet)
  : completion string :=
  let* resultJson :=
    of_option (mkError "TypeError" "invalid string value") (stringify result) in
  let dataBytes := toUtf8Bytes resultJson in
  signData dataBytes w.

(** ** The server module (src/unnamed/part_000) *)

(** What the gateway does that can be observed besides its responses:
    console output and the calls of the decoder, of a compute function and
    of the signing key. *)
Inductive event : Type :=
| EWarn (msg : string)
| EError (msg : string)
| EAbiDecode
| EJsonParse
| ECompute (functionName : string)
| ESign.

(** The state of the process: the two limiters, the metrics singleton and
    the events so far. *)
Record server := mkServer {
  ipLimiter : RateLimiter.t;
  apiKeyLimiter : RateLimiter.t;
  metrics : Metrics.t;
  trace : list event
}.

Definition initial : server :=
  mkServer ipRateLimiter apiKeyRateLimiter Metrics.new [].

(** A request with a JSON object as its body: the header x-api-key, the
    peer address, the length in bytes of the body as it was received, and
    the object that [express.json] parses from it. *)
Record request := mkRequest {
  x_api_key : option string;
  ip : option string;
  remoteAddress : option string;
  content_length : Z;
  body : list (string * value)
}.

Record response := mkResponse {
  status : Z;
  headers : list (string * value);
  json : value
}.

(** The readings of [Date.now()] while one request is served. *)
Record clock := mkClock {
  t_check : Z;
  t_remaining : Z;
  t_reset : Z;
  t_start : Z;
  t_nonce : Z;
  t_timestamp : Z;
  t_end : Z
}.

(** Computations on the state of the process that may throw; the state
    changes made before a throw persist. *)
Definition M (A : Type) : Type := server -> completion A * server.

Definition ret {A : Type} (a : A) : M A := fun s => (Normal a, s).

Definition mbind {A B : Type} (m : M A) (k : A -> M B) : M B :=
  fun s =>
    match m s with
    | (Normal a, s') => k a s'
    | (Throw e, s') => (Throw e, s')
    end.

Notation "'let!' x ':=' m 'in' k" := (mbind m (fun x => k))
  (at level 10, x name, m at level 100, k at level 200).

Definition lift {A : Type} (c : completion A) : M A := fun s => (c, s).

(** [try { body } catch (e) { handler e }] *)
Definition try_catch {A : Type} (body : M A) (handler : error -> M A) : M A :=
  fun s =>
    match body s with
    | (Normal a, s') => (Normal a, s')
    | (Throw e, s') => handler e s'
    end.

Definition emit (ev : event) : M unit :=
  fun s =>
    (Normal tt,
     mkServer (ipLimiter s) (apiKeyLimiter s) (metrics s) (trace s ++ [ev])).

Definition update_metrics (f : Metrics.t -> Metrics.t) : M unit :=
  fun s =>
    (Normal tt,
     mkServer (ipLimiter s) (apiKeyLimiter s) (f (metrics s)) (trace s)).

(** *** rateLimitMiddleware *)

Inductive step (A : Type) : Type :=
| Respond (r : response)
| Next (a : A).
Arguments Respond {A} r.
Arguments Next {A} a.

Definition present (h : option string) : bool :=
  match h with
  | Some s => negb (String.eqb s "")
  | None => false
  end.

(** [req.headers['x-api-key'] || req.ip || req.connection.remoteAddress] *)
Definition identifier (req : request) : option string :=
  if present (x_api_key req) then x_api_key req
  else if present (ip req) then ip req
  else remoteAddress req.

Definition rate_limited : response :=
  mkResponse 429 []
    (VObj [ ("error", VStr "Rate limit exceeded");
            ("retryAfter", VNum 60);
            ("remaining", VNum 0) ]).

(** [req.headers['x-api-key'] ? apiKeyRateLimiter : ipRateLimiter] *)
Definition limiter_of (s : server) (req : request) : RateLimiter.t :=
  if present (x_api_key req) then apiKeyLimiter s else ipLimiter s.

Definition with_limiter (s : server) (req : request) (l : RateLimiter.t)
  : server :=
  if present (x_api_key req)
  then mkServer (ipLimiter s) l (metrics s) (trace s)
  else mkServer l (apiKeyLimiter s) (metrics s) (trace s).

(** The answer of [limiter.check(identifier)] for a request. *)
Definition admits (s : server) (req : request) (clk : clock) : bool :=
  fst (RateLimiter.check (limiter_of s req) (identifier req) (t_check clk)).

Definition rateLimitMiddleware `{Host} (req : request) (clk : clock)
  : M (step (list (string * value))) :=
  fun s =>
    let key := identifier req in
    match RateLimiter.check (limiter_of s req) key (t_check clk) with
    | (false, limiter) =>
        (Normal (Respond rate_limited), with_limiter s req limiter)
    | (true, limiter) =>
        let '(rest, limiter) :=
          RateLimiter.remaining limiter key (t_remaining clk) in
        (Normal (Next
           [ ("X-RateLimit-Limit", VNum (RateLimiter.maxRequests limiter));
             ("X-RateLimit-Remaining", VNum rest);
             ("X-RateLimit-Reset",
              VStr (toISOString (t_reset clk + RateLimiter.windowMs limiter))) ]),
         with_limiter s req limiter)
    end.

(** *** validateRequest *)

(** [for (const key in params) if (typeof params[key] === 'string') ...] *)
Definition sanitize_entry (v : value) : value :=
  match v with
  | VStr _ => VStr (sanitizeString v 1000)
  | _ => v
  end.

Definition sanitize_params (params : value) : value :=
  match params with
  | VObj l => VObj (map (fun '(k, v) => (k, sanitize_entry v)) l)
  | VArr l => VArr (map sanitize_entry l)
  | _ => params
  end.

(** The list [errors] and the body after the in-place updates.  The
    size of the data is [JSON.stringify(data).length], in which a number
    counts with its text ([Js.number_text]). *)
Definition validate `{Ethers} (body : list (string * value))
  : list string * list (string * value) :=
  let node := assoc "node" body in
  let errors1 :=
    if truthy node && negb (isValidNode node)
    then ["Invalid node parameter"] else [] in
  let name := assoc "name" body in
  let '(errors2, body) :=
    if truthy name then
      let name := VStr (sanitizeString name 255) in
      (if isValidENSName name then [] else ["Invalid ENS name"],
       set_prop "name" name body)
    else ([], body) in
  let data := assoc "data" body in
  let errors3 :=
    if truthy data && (100000 <? utf16_length (json_text data))
    then ["Request data too large (max 100KB)"] else [] in
  let params := assoc "params" body in
  let '(errors4, body) :=
    if truthy params then
      if is_object params
      then ([], set_prop "params" (sanitize_params params) body)
      else (["Params must be an object"], body)
    else ([], body) in
  (errors1 ++ errors2 ++ errors3 ++ errors4, body).

Definition validation_failed (errors : list string) : response :=
  mkResponse 400 []
    (VObj [ ("error", VStr "Validation failed");
            ("details", VArr (map VStr errors)) ]).

Definition validateRequest `{Ethers} (body : list (string * value))
  : step (list (string * value)) :=
  let '(errors, body) := validate body in
  if 0 <? Z.of_nat (length errors)
  then Respond (validation_failed errors)
  else Next body.

(** *** POST /lookup: decoding the call data *)

(** [o.k] on any value: a TypeError on null and undefined. *)
Definition member (k : string) (o : value) : completion value :=
  match o with
  | VUndef | VNull =>
      Throw (mkError "TypeError"
               ("Cannot read properties of " +:+ to_string o +:+
                " (reading '" +:+ k +:+ "')"))
  | _ => Normal (Js.get k o)
  end.

(** [data && (typeof data === 'string' ? data.length > 0
                                        : Object.keys(data).length > 0)] *)
Definition has_content (data : value) : bool :=
  truthy data &&
  match data with
  | VStr s => 0 <? utf16_length s
  | VArr l => 0 <? Z.of_nat (length l)
  | VObj l => 0 <? Z.of_nat (length (keys l))
  | _ => false
  end.

(** [v.length > 0] *)
Definition nonempty (v : value) : bool :=
  match v with
  | VStr s => 0 <? utf16_length s
  | VArr l => 0 <? Z.of_nat (length l)
  | _ => false
  end.

(** [ethers.toUtf8String(bytesLike)] *)
Definition toUtf8String `{Ethers} (v : value) : completion string :=
  match v with
  | VStr hex =>
      match Hex.getBytes hex with
      | Some b =>
          if utf8_valid b then Normal (string_of_list_byte b)
          else Throw (mkError "Error" "invalid codepoint")
      | None => Throw (mkError "TypeError" "invalid BytesLike value")
      end
  | _ => Throw (mkError "TypeError" "invalid BytesLike value")
  end.

Definition default_function : value := VStr "pricefeed".
Definition default_params : value := VObj [].

(** The statements between [let functionName = 'pricefeed'] and the call
    of [executeCompute]: the values of [functionName] and [params] after
    them. *)
Definition decode_call_data `{Ethers} `{Host} (data : value)
  : M (value * value) :=
  let functionName := default_function in
  let params := default_params in
  if has_content data then
    try_catch
      (match data with
       | VStr s =>
           if starts_with "0x" s then
             let! _ := emit EAbiDecode in
             let! decoded := lift (abi_decode [TString; TBytes] s) in
             let functionName := Js.or (nth 0 decoded VUndef) functionName in
             let paramsBytes := nth 1 decoded VUndef in
             if truthy paramsBytes && nonempty paramsBytes then
               try_catch
                 (let! text := lift (toUtf8String paramsBytes) in
                  let! _ := emit EJsonParse in
                  let! params := lift (JSON_parse text) in
                  ret (functionName, params))
                 (fun e =>
                    let! _ := emit (EWarn ("Could not parse params JSON: " +:+
                                           err_message e)) in
                    ret (functionName, params))
             else ret (functionName, params)
           else
             let! _ := emit EJsonParse in
             let! parsed := lift (JSON_parse s) in
             let! f := lift (member "function" parsed) in
             let functionName := Js.or f functionName in
             let! p := lift (member "params" parsed) in
             ret (functionName, Js.or p (VObj []))
       | _ =>
           if is_object data then
             ret (Js.or (Js.get "function" data) functionName,
                  Js.or (Js.get "params" data) (VObj []))
           else ret (functionName, params)
       end)
      (fun e =>
         let! _ := emit (EWarn ("Could not decode call data, using defaults: "
                                +:+ err_message e)) in
         ret (functionName, params))
  else ret (functionName, params).

(** *** POST /lookup: the two response formats *)

Definition envelope_value (e : Envelope.t) : value :=
  VObj [ ("name", Envelope.name e);
         ("method", Envelope.method e);
         ("params", Envelope.params e);
         ("result", Envelope.result e);
         ("cursor", Envelope.cursor e);
         ("prev_digest", Envelope.prev_digest e);
         ("meta", Envelope.meta e);
         ("cache_ttl", Envelope.cache_ttl e);
         ("digest", Envelope.digest e);
         ("signature", Envelope.signature e) ].

(** [ethers.ZeroHash] *)
Definition ZeroHash : string := Hex.hexlify (repeat x00 32).

Definition wire_types : list abi_type :=
  [ TTuple [ TString; TString; TString; TString; TString; TBytes32;
             TString; TUint256; TBytes32; TBytes ] ].

Definition wire_values (e : Envelope.t) : list value :=
  [ VArr [ Envelope.name e;
           Envelope.method e;
           Envelope.params e;
           Envelope.result e;
           Js.or (Envelope.cursor e) (VStr "");
           Js.or (Envelope.prev_digest e) (VStr ZeroHash);
           Envelope.meta e;
           Envelope.cache_ttl e;
           Envelope.digest e;
           Envelope.signature e ] ].

(** The struct that the contract decodes from the tuple of the wire
    format of an envelope whose fields have the types of the tuple. *)
Definition on_chain (e : Envelope.t) : option EnvelopeVerifier.Envelope :=
  match Envelope.name e, Envelope.method e, Envelope.params e,
        Envelope.result e, Envelope.meta e, Envelope.cache_ttl e with
  | VStr name, VStr method, VStr params, VStr result, VStr meta,
    VNum cacheTtl =>
      match Js.or (Envelope.cursor e) (VStr ""),
            Js.or (Envelope.prev_digest e) (VStr ZeroHash),
            Envelope.digest e, Envelope.signature e with
      | VStr cursor, VStr prevDigest, VStr digest, VStr signature =>
          match Hex.getBytes prevDigest, Hex.getBytes digest,
                Hex.getBytes signature with
          | Some prevDigest, Some digest, Some signature =>
              Some (EnvelopeVerifier.mk name method params result cursor
                      prevDigest meta cacheTtl digest signature)
          | _, _, _ => None
          end
      | _, _, _, _ => None
      end
  | _, _, _, _, _, _ => None
  end.

(** The argument of [createEnvelope] in the handler. *)
Definition lookup_args (body : list (string * value))
    (functionName params result : value) (clk : clock)
  : completion Envelope.args :=
  let* cursor := member "cursor" params in
  let* prevDigest := member "prevDigest" params in
  let* cacheTtl := member "cacheTtl" params in
  Normal
    {| Envelope.a_name := Js.or (assoc "name" body) (VStr "unknown.eth");
       Envelope.a_method := functionName;
       Envelope.a_params := params;
       Envelope.a_result := result;
       Envelope.a_cursor := Js.or cursor VNull;
       Envelope.a_prevDigest := Js.or prevDigest VNull;
       Envelope.a_meta :=
         VObj [ ("provider", VStr "ens-compute-gateway");
                ("version", VStr "1.0.0");
                ("nonce", VNum (t_nonce clk));
                ("timestamp", VNum (t_timestamp clk / 1000)) ];
       Envelope.a_cacheTtl := Js.or cacheTtl (VNum 30) |}.

Definition record_success (functionName : value) (clk : clock) : M unit :=
  let latency := t_end clk - t_start clk in
  let! _ := update_metrics
              (Metrics.recordRequest (to_string functionName) true latency) in
  update_metrics Metrics.recordSignatureGenerated.

Definition envelope_path `{Ethers} (w : wallet) (body : list (string * value))
    (functionName params result : value) (clk : clock) : M response :=
  let! args := lift (lookup_args body functionName params result clk) in
  let! _ := emit ESign in
  let! envelope := lift (createEnvelope args w) in
  let! response := lift (abi_encode wire_types (wire_values envelope)) in
  let! _ := record_success functionName clk in
  ret (mkResponse 200 []
         (VObj [ ("data", VStr response);
                 ("envelope", envelope_value envelope) ])).

Definition legacy_types : list abi_type := [TBytes; TBytes].

Definition legacy_values (resultJson signature : string) : list value :=
  [ VStr (Hex.hexlify (toUtf8Bytes resultJson)); VStr signature ].

Definition legacy_path `{Ethers} (w : wallet) (functionName result : value)
    (clk : clock) : M response :=
  let! _ := match stringify result with
             | Some _ => emit ESign
             | None => ret tt
             end in
  let! signature := lift (signResult result w) in
  let! resultJson :=
    lift (of_option (mkError "TypeError" "invalid string value")
            (stringify result)) in
  let! response :=
    lift (abi_encode legacy_types (legacy_values resultJson signature)) in
  let! _ := record_success functionName clk in
  ret (mkResponse 200 [] (VObj [ ("data", VStr response) ])).

(** *** POST /lookup: the handler *)

(** The bindings that a block of the handler can name.  The arrow
    function binds [req] and [res] and declares [startTime]; the module
    declares the rest.  The [try] block declares [node], [data],
    [functionName], [params], [result] and [useEnvelope] with [const] and
    [let]: they are local to that block.  The [catch] block binds [error]
    and declares [latency]. *)
Definition module_scope : list string :=
  [ "express"; "cors"; "ethers"; "executeCompute"; "signResult";
    "createEnvelope"; "metrics"; "rateLimitMiddleware"; "validateRequest";
    "app"; "PRIVATE_KEY"; "wallet"; "PORT";
    "console"; "Date"; "Math"; "process"; "require" ].

Definition handler_scope : list string :=
  [ "req"; "res"; "startTime" ] ++ module_scope.

Definition try_scope : list string :=
  [ "node"; "data"; "functionName"; "params"; "result"; "useEnvelope" ]
    ++ handler_scope.

Definition catch_scope : list string :=
  [ "error"; "latency" ] ++ handler_scope.

(** Reading the identifier [x], whose binding (if any) holds [v]. *)
Definition read_identifier (scope : list string) (x : string) (v : value)
  : completion value :=
  if existsb (String.eqb x) scope then Normal v
  else Throw (mkError "ReferenceError" (x +:+ " is not defined")).

Definition missing_node : response :=
  mkResponse 400 [] (VObj [ ("error", VStr "Missing node parameter") ]).

(** The [try] block. *)
Definition lookup_try `{Ethers} `{Host} (w : wallet)
    (body : list (string * value)) (clk : clock) : M response :=
  let node := assoc "node" body in
  let data := assoc "data" body in
  if negb (truthy node) then ret missing_node
  else
    let! decoded := decode_call_data data in
    let '(functionName, params) := decoded in
    let! _ :=
      match called functionName with
      | Some key => emit (ECompute key)
      | None => ret tt
      end in
    let! result := lift (executeCompute functionName params) in
    let useEnvelope := not_false (assoc "useEnvelope" body) in
    if useEnvelope
    then envelope_path w body functionName params result clk
    else legacy_path w functionName result clk.

(** The [catch] block.  Its first statement after [latency] reads
    [functionName]. *)
Definition lookup_catch (clk : clock) (error : error) : M response :=
  let latency := t_end clk - t_start clk in
  let! functionName :=
    lift (read_identifier catch_scope "functionName" VUndef) in
  let! _ := update_metrics
              (Metrics.recordRequest
                 (to_string (Js.or functionName (VStr "unknown")))
                 false latency) in
  let! _ := emit (EError ("Lookup error: " +:+ err_message error)) in
  ret (mkResponse 500 [] (VObj [ ("error", VStr (err_message error)) ])).

(** The handler of the route.  [Throw e]: the promise of the handler is
    rejected with [e], and the handler has written no response. *)
Definition lookup `{Ethers} `{Host} (w : wallet)
    (body : list (string * value)) (clk : clock) : M response :=
  try_catch (lookup_try w body clk) (lookup_catch clk).

Definition with_headers (h : list (string * value)) (r : response)
  : response :=
  mkResponse (status r) (h ++ headers r) (json r).

(** [express.json({ limit: '100kb' })]: a body of more than 100 * 1024
    bytes is refused with 413 by the parser, through the error handler of
    the framework (the body of that response is not JSON). *)
Definition body_limit : Z := 100 * 1024.

Definition payload_too_large : response := mkResponse 413 [] VUndef.

(** [app.use(express.json(...))], [app.use(rateLimitMiddleware)], then
    [app.post('/lookup', validateRequest, handler)]. *)
Definition post_lookup `{Ethers} `{Host} (w : wallet) (req : request)
    (clk : clock) : M response :=
  if body_limit <? content_length req then ret payload_too_large
  else
    let! admitted := rateLimitMiddleware req clk in
    match admitted with
    | Respond r => ret r
    | Next h =>
        match validateRequest (body req) with
        | Respond r => ret (with_headers h r)
        | Next body =>
            let! r := lookup w body clk in
            ret (with_headers h r)
        end
    end.

(** ** Stand-ins for the libraries

    Small total functions in place of keccak-256, secp256k1, the ABI
    coder, [JSON.parse], the compute functions and the methods of
    [Object.prototype], to run the gateway on concrete requests.  The
    coder and the parser know the texts used below and reject every
    other input. *)

Module Sample.

Definition address : string := "0x7E5F4552091A69125d5DfCb7b8C2659029395Bdf".

(** The call data [encode(['string','bytes'], ['daovotes', utf8('not json')])]. *)
Definition call_data : string :=
  "0x" +:+
  "0000000000000000000000000000000000000000000000000000000000000040" +:+
  "0000000000000000000000000000000000000000000000000000000000000080" +:+
  "0000000000000000000000000000000000000000000000000000000000000008" +:+
  "64616f766f746573000000000000000000000000000000000000000000000000" +:+
  "0000000000000000000000000000000000000000000000000000000000000008" +:+
  "6e6f74206a736f6e000000000000000000000000000000000000000000000000".

#[export] Instance ethers : Ethers := {|
  wallet := unit;
  signingKey_sign := fun _ h => mkSignature h (repeat x01 32) 27;
  wallet_address := fun _ => address;
  keccak256 := fun b => take 32 (b ++ repeat x00 32);
  recoverAddress := fun _ _ => address;
  abi_encode := fun _ vs =>
    Normal (Hex.hexlify (toUtf8Bytes (json_text (VArr vs))));
  abi_decode := fun _ data =>
    if String.eqb data call_data
    then Normal [VStr "daovotes"; VStr "0x6e6f74206a736f6e"]
    else Throw (mkError "Error" "data out-of-bounds");
  namehash_accepts := fun _ => true;
  utf8_valid := fun _ => true
|}.

Definition unknown_text : string :=
  "{" +:+ dquote +:+ "function" +:+ dquote +:+ ":" +:+
  dquote +:+ "nosuch" +:+ dquote +:+ "}".

Definition votes : value :=
  VObj [ ("success", VBool true);
         ("data", VObj [ ("daoId", VStr "default"); ("totalVotes", VNum 1250) ]);
         ("type", VStr "daovotes") ].

Definition price : value :=
  VObj [ ("success", VBool true);
         ("data", VObj [ ("pair", VStr "ETH/USD"); ("timestamp", VNum 1700000000) ]);
         ("type", VStr "pricefeed") ].

Definition floor : value :=
  VObj [ ("success", VBool true);
         ("data", VObj [ ("collection", VStr "default-collection");
                         ("listings", VNum 123) ]);
         ("type", VStr "nftfloor") ].

#[export] Instance host : Host := {|
  JSON_parse := fun text =>
    if String.eqb text unknown_text
    then Normal (VObj [ ("function", VStr "nosuch") ])
    else Throw (mkError "SyntaxError" "Unexpected token in JSON");
  toISOString := number_text;
  pricefeed_compute := fun _ => Normal price;
  daovotes_compute := fun _ => Normal votes;
  nftfloor_compute := fun _ => Normal floor;
  Object_prototype_call := fun name params =>
    if String.eqb name "constructor" then
      Normal (match params with VUndef | VNull => VObj [] | _ => params end)
    else if String.eqb name "toString" then
      Normal (VStr "[object Undefined]")
    else Throw (mkError "TypeError" (name +:+ " is not a function"))
|}.

Definition node : value :=
  VStr ("0x" +:+
        "0000000000000000000000000000000000000000000000000000000000000000").

Definition now : clock := mkClock 1000 1000 1000 1000 1001 1001 1004.

Definition client (b : list (string * value)) : request :=
  mkRequest None (Some "203.0.113.7") None 512 b.

(** A price feed lookup, the same with the legacy format, a lookup whose
    params do not parse, a lookup of an unregistered method, a lookup
    with cacheTtl 0, and two requests without a node. *)
Definition price_lookup : request :=
  client [ ("node", node); ("data", VStr ""); ("name", VStr "pricefeed.eth") ].

Definition legacy_lookup : request :=
  client [ ("node", node); ("data", VStr "");
           ("name", VStr "pricefeed.eth"); ("useEnvelope", VBool false) ].

Definition unparsed_lookup : request :=
  client [ ("node", node); ("data", VStr call_data) ].

Definition unknown_lookup : request :=
  client [ ("node", node); ("data", VStr unknown_text) ].

Definition uncached_lookup : request :=
  client [ ("node", node);
           ("data", VObj [ ("function", VStr "daovotes");
                           ("params", VObj [ ("cacheTtl", VNum 0) ]) ]) ].







Definition builder_args : Envelope.args :=
  {| Envelope.a_name := VStr "pricefeed.eth";
     Envelope.a_method := VStr "pricefeed";
     Envelope.a_params := VObj [];
     Envelope.a_result := price;
     Envelope.a_cursor := VUndef;
     Envelope.a_prevDigest := VUndef;
     Envelope.a_meta := VUndef;
     Envelope.a_cacheTtl := VUndef |}.

(** A text in which an apostrophe stands for a double quote. *)
Fixpoint double_quotes (s : string) : string :=
  match s with
  | EmptyString => EmptyString
  | String c r =>
      String (if Ascii.eqb c "'" then "034"%char else c) (double_quotes r)
  end.

(** The text that [computeDigest] hashes for the envelope of these
    inputs, and the canonical form of that envelope. *)
Definition hashed_text : string :=
  double_quotes
    ("{'cache_ttl':30,'cursor':null,'meta':'{}','method':'pricefeed'," +:+
     "'name':'pricefeed.eth','params':'{}','prev_digest':null," +:+
     "'result':'{\'success\':true,\'data\':{\'pair\':\'ETH/USD\'," +:+
     "\'timestamp\':1700000000},\'type\':\'pricefeed\'}'}").

Definition canonical_text : string :=
  double_quotes
    ("{'cache_ttl':30,'cursor':null,'meta':'{}','method':'pricefeed'," +:+
     "'name':'pricefeed.eth','params':'{}','prev_digest':null," +:+
     "'result':'{'success':true,'data':{'pair':'ETH/USD'," +:+
     "'timestamp':1700000000},'type':'pricefeed'}'}").

(** The same inputs with the cache_ttl given, equal to 30. *)
Definition thirty_args : Envelope.args :=
  {| Envelope.a_name := VStr "pricefeed.eth";
     Envelope.a_method := VStr "pricefeed";
     Envelope.a_params := VObj [];
     Envelope.a_result := price;
     Envelope.a_cursor := VUndef;
     Envelope.a_prevDigest := VUndef;
     Envelope.a_meta := VUndef;
     Envelope.a_cacheTtl := VNum 30 |}.

(** A request that carries the header X-API-Key with an empty value. *)
Definition empty_key : request :=
  mkRequest (Some "") (Some "203.0.113.7") None 512
    [ ("node", node); ("data", VStr "") ].

(** A limiter of at most 2 requests in 10 ms, and four calls of one
    client between which the clock is set back once, from 100 to 5. *)
Definition small_limiter : RateLimiter.t := RateLimiter.new 10 2.

Definition backward_calls : list limiter_call :=
  [ Check (Some "a") 0; Check (Some "a") 1; Check (Some "a") 100;
    Check (Some "a") 5 ].

(** The answer to the price feed lookup and the process after it. *)
Definition price_response : response :=
  match fst (@post_lookup ethers host tt price_lookup now initial) with
  | Normal r => r
  | Throw _ => missing_node
  end.

Definition after_price_lookup : server :=
  snd (@post_lookup ethers host tt price_lookup now initial).

End Sample.

(** ** Property names

    The association lists stand for objects whose property names are
    plain: ASCII (on which the order of [sort], by code unit, is the
    order of the bytes), not a string of digits (an array index is
    enumerated before the other properties, in numeric order, whatever
    the order of insertion) and not [__proto__] (an assignment to it sets
    the prototype and adds no property). *)
Definition is_digit (c : ascii) : bool :=
  let n := N_of_ascii c in ((48 <=? n) && (n <=? 57))%N.

Definition plain_name (k : string) : bool :=
  forallb (fun c => (N_of_ascii c <? 128)%N) (list_ascii_of_string k) &&
  negb (negb (String.eqb k "") &&
        forallb is_digit (list_ascii_of_string k)) &&
  negb (String.eqb k "__proto__").

(** ** gateway/utils/envelope.js: verifyEnvelope *)

(** What [verifyEnvelope] uses of the library and of the host besides
    the functions of [Ethers]. *)
Class Verifier (E : Ethers) : Type := {
  (** [ethers.Signature.from(v)]; throws when [v] is not a signature *)
  Signature_from : value -> completion Signature;
  (** [ethers.recoverAddress(digest, signature)] on a [Signature]; throws
      when no key is recovered *)
  recoverSigner : bytes -> Signature -> completion string;
  (** [String.prototype.toLowerCase] *)
  toLowerCase : string -> string
}.

(** What is relied on from them: [Signature.from] reads back a canonical
    signature from its 65-byte form, and the key that signed a 32-byte
    digest is recovered from the digest and the signature. *)
Class VerifierLaws (E : Ethers) (V : Verifier E) : Prop := {
  from_serialized : forall sg,
    length (sig_r sg) = 32%nat -> length (sig_s sg) = 32%nat ->
    sig_v sg = 27 \/ sig_v sg = 28 ->
    be_value (sig_s sg) <= secp256k1_n / 2 ->
    Signature_from (VStr (Hex.hexlify (signature_bytes sg))) = Normal sg;
  recover_own : forall w h,
    length h = 32%nat ->
    recoverSigner h (signingKey_sign w h) = Normal (wallet_address w)
}.

(** [v.toLowerCase()] on any value: a TypeError unless [v] is a string. *)
Definition lower `{V : Verifier} (v : value) : completion string :=
  match v with
  | VStr s => Normal (toLowerCase s)
  | _ => Throw (mkError "TypeError" "toLowerCase is not a function")
  end.

(** The [try] block of [verifyEnvelope]. *)
Definition recovered_matches `{V : Verifier} (messageHash : bytes)
    (signature expectedSigner : value) : completion bool :=
  let* sig := Signature_from signature in
  let* recoveredSigner := recoverSigner messageHash sig in
  let* expected := lower expectedSigner in
  Normal (String.eqb (toLowerCase recoveredSigner) expected).

Definition verifyEnvelope `{V : Verifier} (envelope : Envelope.t)
    (expectedSigner : value) : completion bool :=
  let computedDigest := computeDigest envelope in
  match Envelope.digest envelope with
  | VStr digest =>
      if negb (String.eqb computedDigest digest) then Normal false
      else
        let* messageHash := eip191_hash digest in
        match recovered_matches messageHash (Envelope.signature envelope)
                expectedSigner with
        | Normal b => Normal b
        | Throw _ => Normal false
        end
  | _ => Normal false
  end.

(** ** gateway/middleware/rateLimit.js: any use of a limiter *)

(** The four methods of a limiter. *)
Inductive limiter_op : Type :=
| Call (c : limiter_call)
| Reset (key : option string).

Definition after (l : RateLimiter.t) (op : limiter_op) : RateLimiter.t :=
  match op with
  | Call (Check key now) => snd (RateLimiter.check l key now)
  | Call (Remaining key now) => snd (RateLimiter.remaining l key now)
  | Call (Cleanup now) => RateLimiter.cleanup l now
  | Reset key => RateLimiter.reset l key
  end.

Definition run_limiter (l : RateLimiter.t) (ops : list limiter_op)
  : RateLimiter.t :=
  fold_left after ops l.

(** ** gateway/monitoring/metrics.js: the recording methods *)

(** [recordRequest(method, success, latency)] with [latency] possibly
    [undefined]: nothing is recorded of the latency then. *)
Definition recordRequest_opt (method : string) (ok : bool)
    (latency : option Z) (m : Metrics.t) : Metrics.t :=
  match latency with
  | Some l => Metrics.recordRequest method ok l m
  | None =>
      let stats :=
        match Metrics.byMethod m !! method with
        | Some st => st
        | None => Metrics.mkStats 0 0 0
        end in
      let stats :=
        Metrics.mkStats (Metrics.m_total stats + 1)
          (if ok then Metrics.m_success stats + 1 else Metrics.m_success stats)
          (if ok then Metrics.m_errors stats else Metrics.m_errors stats + 1) in
      Metrics.mk (Metrics.total m + 1)
        (if ok then Metrics.success m + 1 else Metrics.success m)
        (if ok then Metrics.errors m else Metrics.errors m + 1)
        (if inherited method then Metrics.byMethod m
         else <[method := stats]> (Metrics.byMethod m))
        (Metrics.latency_sum m) (Metrics.latency_count m)
        (Metrics.distribution m) (Metrics.le_inf m)
        (Metrics.cache_hits m) (Metrics.cache_misses m)
        (Metrics.signatures_generated m) (Metrics.signatures_verified m)
        (Metrics.signatures_failed m)
  end.

Definition recordCacheHit (m : Metrics.t) : Metrics.t :=
  Metrics.mk (Metrics.total m) (Metrics.success m) (Metrics.errors m)
    (Metrics.byMethod m) (Metrics.latency_sum m) (Metrics.latency_count m)
    (Metrics.distribution m) (Metrics.le_inf m) (Metrics.cache_hits m + 1)
    (Metrics.cache_misses m) (Metrics.signatures_generated m)
    (Metrics.signatures_verified m) (Metrics.signatures_failed m).

Definition recordCacheMiss (m : Metrics.t) : Metrics.t :=
  Metrics.mk (Metrics.total m) (Metrics.success m) (Metrics.errors m)
    (Metrics.byMethod m) (Metrics.latency_sum m) (Metrics.latency_count m)
    (Metrics.distribution m) (Metrics.le_inf m) (Metrics.cache_hits m)
    (Metrics.cache_misses m + 1) (Metrics.signatures_generated m)
    (Metrics.signatures_verified m) (Metrics.signatures_failed m).

Definition recordSignatureVerified (ok : bool) (m : Metrics.t) : Metrics.t :=
  Metrics.mk (Metrics.total m) (Metrics.success m) (Metrics.errors m)
    (Metrics.byMethod m) (Metrics.latency_sum m) (Metrics.latency_count m)
    (Metrics.distribution m) (Metrics.le_inf m) (Metrics.cache_hits m)
    (Metrics.cache_misses m) (Metrics.signatures_generated m)
    (if ok then Metrics.signatures_verified m + 1
     else Metrics.signatures_verified m)
    (if ok then Metrics.signatures_failed m
     else Metrics.signatures_failed m + 1).

(** The calls that record something. *)
Inductive metrics_call : Type :=
| Request (method : string) (ok : bool) (latency : option Z)
| CacheHit
| CacheMiss
| SignatureGenerated
| SignatureVerified (ok : bool).

Definition record (m : Metrics.t) (c : metrics_call) : Metrics.t :=
  match c with
  | Request method ok latency => recordRequest_opt method ok latency m
  | CacheHit => recordCacheHit m
  | CacheMiss => recordCacheMiss m
  | SignatureGenerated => Metrics.recordSignatureGenerated m
  | SignatureVerified ok => recordSignatureVerified ok m
  end.

Definition recorded (calls : list metrics_call) : Metrics.t :=
  fold_left record calls Metrics.new.

(** The latencies that were given, in the order of the calls. *)
Definition latencies (calls : list metrics_call) : list Z :=
  flat_map (fun c =>
              match c with
              | Request _ _ (Some l) => [l]
              | _ => []
              end) calls.

Definition requests (calls : list metrics_call) : list bool :=
  flat_map (fun c =>
              match c with
              | Request _ ok _ => [ok]
              | _ => []
              end) calls.

(** The number of the elements of [l] that satisfy [p]. *)
Definition count {A : Type} (p : A -> bool) (l : list A) : Z :=
  Z.of_nat (length (List.filter p l)).

(** ** The server module: POST /compute *)

Definition missing_function : response :=
  mkResponse 400 [] (VObj [ ("error", VStr "Missing function parameter") ]).

(** The [try] block of the handler. *)
Definition compute_try `{Ethers} `{Host} (w : wallet)
    (body : list (string * value)) : M response :=
  let functionName := assoc "function" body in
  let params := assoc "params" body in
  if negb (truthy functionName) then ret missing_function
  else
    let! _ :=
      match called functionName with
      | Some key => emit (ECompute key)
      | None => ret tt
      end in
    let! result :=
      lift (executeCompute functionName (Js.or params (VObj []))) in
    let! _ := match stringify result with
               | Some _ => emit ESign
               | None => ret tt
               end in
    let! signature := lift (signResult result w) in
    ret (mkResponse 200 []
           (VObj [ ("result", result);
                   ("signature", VStr signature);
                   ("signer", VStr (wallet_address w)) ])).

(** The [catch] block: [error] is its own binding. *)
Definition compute_catch (error : error) : M response :=
  let! _ := emit (EError ("Compute error: " +:+ err_message error)) in
  ret (mkResponse 500 [] (VObj [ ("error", VStr (err_message error)) ])).

Definition compute_route `{Ethers} `{Host} (w : wallet)
    (body : list (string * value)) : M response :=
  try_catch (compute_try w body) compute_catch.

(** [app.post('/compute', validateRequest, handler)] behind the body
    parser and the rate limiter. *)
Definition post_compute `{Ethers} `{Host} (w : wallet) (req : request)
    (clk : clock) : M response :=
  if body_limit <? content_length req then ret payload_too_large
  else
    let! admitted := rateLimitMiddleware req clk in
    match admitted with
    | Respond r => ret r
    | Next h =>
        match validateRequest (body req) with
        | Respond r => ret (with_headers h r)
        | Next body =>
            let! r := compute_route w body in
            ret (with_headers h r)
        end
    end.

(** [s'] differs from [s] by console output and library calls at most:
    the limiters and the metrics are those of [s], and the events of [s]
    are followed by new ones. *)
Definition logs_only (s s' : server) : Prop :=
  ipLimiter s' = ipLimiter s /\
  apiKeyLimiter s' = apiKeyLimiter s /\
  metrics s' = metrics s /\
  exists events, trace s' = trace s ++ events.

(** What a lookup that is answered 200 records: one successful request
    of the method, with the latency of the handler, and one signature. *)
Definition lookup_recorded (functionName : value) (clk : clock)
    (m : Metrics.t) : Metrics.t :=
  Metrics.recordSignatureGenerated
    (Metrics.recordRequest (to_string functionName) true
       (t_end clk - t_start clk) m).

(** ** contracts/Verifier.sol

    The contract that checks on chain what [signData] signs.  An address
    is the number of its twenty bytes; [keccak256] is the function of the
    library. *)
Class Evm (E : Ethers) : Type := {
  (** the precompiled contract [ecrecover(hash, v, r, s)]: zero when no
      address is recovered *)
  ecrecover : bytes -> Z -> bytes -> bytes -> Z;
  (** the address of a wallet, as a number *)
  account : wallet -> Z
}.

(** [ecrecover] returns the address of the key that signed a 32-byte
    hash, which is not the zero address. *)
Class EvmLaws (E : Ethers) (C : Evm E) : Prop := {
  ecrecover_signed : forall w h,
    length h = 32%nat ->
    ecrecover h (sig_v (signingKey_sign w h)) (sig_r (signingKey_sign w h))
      (sig_s (signingKey_sign w h)) = account w;
  account_nonzero : forall w, account w <> 0
}.

Module Verifier.

(** [verify(data, signature, signer)]; [Throw]: the call reverts. *)
Definition verify `{C : Evm} (data signature : bytes) (signer : Z)
  : completion bool :=
  if negb (length signature =? 65)%nat
  then Throw (mkError "Error" "Verifier: invalid signature length")
  else
    let messageHash :=
      keccak256 (toUtf8Bytes eip191_prefix ++ keccak256 data) in
    let r := take 32 signature in
    let s := take 32 (drop 32 signature) in
    let v := Z.of_N (Byte.to_N (nth 64 signature x00)) in
    let recoveredSigner := ecrecover messageHash v r s in
    Normal ((recoveredSigner =? signer) && negb (recoveredSigner =? 0)).

End Verifier.

(** ** contracts/Billing.sol

    The functions [payForCall], [subscribe] and [hasAccess] of the
    contract, on its storage.  Addresses, nodes and amounts are numbers;
    the arithmetic is the checked arithmetic of Solidity 0.8.  A call
    carries [msg.sender], [msg.value] and [block.timestamp].  The two
    calls that leave the contract (the refund to the sender and
    [transferFrom] on the token) revert or return, as the [outcomes] say;
    a token that calls back into the contract is not represented.
    [Throw]: the transaction reverts and the storage is unchanged. *)
Module Billing.

Definition uint256_max : Z := 2 ^ 256 - 1.

Definition panic : error := mkError "Panic" "0x11".

Definition checked_add (a b : Z) : completion Z :=
  if a + b <=? uint256_max then Normal (a + b) else Throw panic.

Definition checked_mul (a b : Z) : completion Z :=
  if a * b <=? uint256_max then Normal (a * b) else Throw panic.

Definition require (condition : bool) (message : string) : completion unit :=
  if condition then Normal tt else Throw (mkError "Error" message).

Module Payment.
Record t := mk {
  payer : Z;
  node : Z;
  method : string;
  amount : Z;
  timestamp : Z;
  settled : bool
}.
End Payment.

Module Subscription.
Record t := mk {
  subscriber : Z;
  node : Z;
  amount : Z;
  period : Z;
  startTime : Z;
  endTime : Z;
  active : bool
}.

(** The value of a mapping at a key that was never written. *)
Definition zero : t := mk 0 0 0 0 0 0 false.
End Subscription.

Record t := mk {
  prices : gmap Z Z;
  paymentTokens : gmap Z Z;
  payments : list Payment.t;
  userPayments : gmap Z (list Z);
  subscriptions : gmap (Z * Z) Subscription.t
}.

Record call := mkCall {
  sender : Z;
  value : Z;
  block_timestamp : Z
}.

Record outcomes := mkOutcomes {
  (** [payable(msg.sender).transfer(amount)] goes through *)
  transfer_accepted : bool;
  (** [IERC20(token).transferFrom(...)] returns (its result is not read) *)
  transferFrom_returns : bool
}.

(** The calls that leave the contract and the events it emits. *)
Inductive effect : Type :=
| Transfer (to amount : Z)
| TransferFrom (token from amount : Z)
| PaymentReceived (payer node : Z) (method : string) (amount : Z)
| SubscriptionCreated (subscriber node amount period : Z)
| SubscriptionRenewed (subscriber node newEndTime : Z).

(** The payment of [amount], in ether or in the token: the statement
    [if (token == address(0)) { ... } else { ... }] of both functions. *)
Definition collect (o : outcomes) (c : call) (token amount : Z)
  : completion (list effect) :=
  if token =? 0 then
    let* _ := require (amount <=? value c) "Billing: insufficient payment" in
    if amount <? value c then
      if transfer_accepted o
      then Normal [Transfer (sender c) (value c - amount)]
      else Throw (mkError "Error" "transfer failed")
    else Normal []
  else
    let* _ := require (value c =? 0) "Billing: use token payment" in
    if transferFrom_returns o
    then Normal [TransferFrom token (sender c) amount]
    else Throw (mkError "Error" "transferFrom reverted").

Definition payForCall (o : outcomes) (c : call) (node : Z) (method : string)
    (st : t) : completion (t * list effect) :=
  let price := default 0 (prices st !! node) in
  let* _ := require (0 <? price) "Billing: endpoint is free" in
  let token := default 0 (paymentTokens st !! node) in
  let* paid := collect o c token price in
  let paymentId := Z.of_nat (length (payments st)) in
  Normal
    (mk (prices st) (paymentTokens st)
       (payments st ++
        [Payment.mk (sender c) node method price (block_timestamp c) true])
       (<[sender c :=
            default [] (userPayments st !! sender c) ++ [paymentId]]>
          (userPayments st))
       (subscriptions st),
     paid ++ [PaymentReceived (sender c) node method price]).

Definition subscribe (o : outcomes) (c : call) (node period : Z) (st : t)
  : completion (t * list effect) :=
  let price := default 0 (prices st !! node) in
  let* _ := require (0 <? price) "Billing: endpoint is free" in
  let token := default 0 (paymentTokens st !! node) in
  let* totalAmount := checked_mul price (period / 86400) in
  let* paid := collect o c token totalAmount in
  let sub := default Subscription.zero (subscriptions st !! (sender c, node)) in
  if Subscription.active sub && (block_timestamp c <? Subscription.endTime sub)
  then
    let* endTime := checked_add (Subscription.endTime sub) period in
    let sub :=
      Subscription.mk (Subscription.subscriber sub) (Subscription.node sub)
        (Subscription.amount sub) (Subscription.period sub)
        (Subscription.startTime sub) endTime (Subscription.active sub) in
    Normal
      (mk (prices st) (paymentTokens st) (payments st) (userPayments st)
         (<[(sender c, node) := sub]> (subscriptions st)),
       paid ++ [SubscriptionRenewed (sender c) node endTime])
  else
    let* endTime := checked_add (block_timestamp c) period in
    let sub :=
      Subscription.mk (sender c) node price period (block_timestamp c)
        endTime true in
    Normal
      (mk (prices st) (paymentTokens st) (payments st) (userPayments st)
         (<[(sender c, node) := sub]> (subscriptions st)),
       paid ++ [SubscriptionCreated (sender c) node price period]).

(** [hasAccess(node, caller)] at the time [now]. *)
Definition hasAccess (st : t) (node caller now : Z) : bool :=
  let price := default 0 (prices st !! node) in
  if price =? 0 then true
  else
    let sub := default Subscription.zero (subscriptions st !! (caller, node)) in
    if Subscription.active sub && (now <? Subscription.endTime sub)
    then true
    else false.

End Billing.

(** ** More stand-ins, for [verifyEnvelope] and the limiter *)

Module Fixture.

#[export] Instance verifier : Verifier Sample.ethers := {|
  Signature_from := fun v =>
    match v with
    | VStr s =>
        match Hex.getBytes s with
        | Some b =>
            if (length b =? 65)%nat
            then Normal (mkSignature (take 32 b) (take 32 (drop 32 b))
                           (Z.of_N (Byte.to_N (nth 64 b x00))))
            else Throw (mkError "Error" "invalid raw signature length")
        | None => Throw (mkError "Error" "invalid signature")
        end
    | _ => Throw (mkError "Error" "invalid signature")
    end;
  recoverSigner := fun _ _ => Normal Sample.address;
  toLowerCase := fun s => s
|}.

#[export] Instance evm : Evm Sample.ethers := {|
  ecrecover := fun _ _ _ _ => 0x7E5F4552091A69125d5DfCb7b8C2659029395Bdf;
  account := fun _ => 0x7E5F4552091A69125d5DfCb7b8C2659029395Bdf
|}.

(** A billing contract with one priced endpoint, paid in ether, and a
    call of the account 7 without value at the time 1000. *)
Definition billing : Billing.t :=
  Billing.mk {[ 1 := 100 ]} ∅ [] ∅ ∅.

Definition visit : Billing.call := Billing.mkCall 7 0 1000.

Definition paid_visit : Billing.call := Billing.mkCall 7 100 1000.

Definition calm : Billing.outcomes := Billing.mkOutcomes true true.

Definition subscribed : Billing.t :=
  Billing.mk {[ 1 := 100 ]} ∅ [] ∅
    {[ (7, 1) := Billing.Subscription.mk 7 1 100 3600 1000 4600 true ]}.

(** An object and the same object with its properties in another order. *)
Definition listing : list (string * value) :=
  [ ("name", VStr "pricefeed.eth"); ("cache_ttl", VNum 30);
    ("meta", VObj [ ("version", VStr "1.0.0"); ("nonce", VNum 7) ]) ].

Definition relisting : list (string * value) :=
  [ ("meta", VObj [ ("version", VStr "1.0.0"); ("nonce", VNum 7) ]);
    ("name", VStr "pricefeed.eth"); ("cache_ttl", VNum 30) ].

(** A limiter that holds two requests of a client. *)
Definition limiter : RateLimiter.t :=
  RateLimiter.mk 60000 100 {[ Some "203.0.113.7" := [500; 61000] ]}.



(** A request that names a method that [computeFunctions] inherits. *)
Definition inherited_request : request :=
  Sample.client [ ("function", VStr "constructor");
                  ("params", VObj [ ("daoId", VStr "uniswap") ]) ].





End Fixture.

(** * Properties *)

(** ** Values and serialisation *)

Lemma undigits_digits (b : bytes) : Hex.undigits (Hex.digits b) = Some b.
Proof.
  induction b as [|x r IH]; [reflexivity|].
  cbn [Hex.digits Hex.undigits]. rewrite IH.
  destruct x; reflexivity.
Qed.

Lemma getBytes_hexlify (b : bytes) : Hex.getBytes (Hex.hexlify b) = Some b.
Proof. unfold Hex.hexlify. cbn. apply undigits_digits. Qed.

Lemma createEnvelope_inv `{Ethers} (p : Envelope.args) (w : wallet)
    (e : Envelope.t) :
  createEnvelope p w = Normal e ->
  exists s,
    e = set_signature (VStr s)
          (set_digest (VStr (computeDigest (envelope_content p)))
             (envelope_content p)).
Proof.
  unfold createEnvelope.
  destruct (eip191_hash _) as [h|]; [|discriminate]. cbn [bind].
  destruct (serialize_signature _) as [s|]; [|discriminate]. cbn [bind].
  intros [= <-]. now exists s.
Qed.


(** ** The envelope *)

Lemma hexlify_injective (a b : bytes) :
  Hex.hexlify a = Hex.hexlify b -> a = b.
Proof.
  intros Heq.
  assert (Some a = Some b) as [= ->]
    by (rewrite <- (getBytes_hexlify a), <- (getBytes_hexlify b); now rewrite Heq).
  reflexivity.
Qed.

(** C1 (digest exactness): the digest is not the hash of the canonical
    JSON.  For the envelope that [createEnvelope] builds from the name
    pricefeed.eth, the method pricefeed, the params {} and a result
    object, with any library and wallet, the digest field is the
    keccak-256 hash of the UTF-8 bytes of a text in which every double
    quote inside the string values is escaped ([Sample.hashed_text]).
    The canonical JSON of the eight content fields, and the preimage
    that contracts/EnvelopeVerifier.sol rebuilds from the envelope's wire
    form, is another text ([Sample.canonical_text]: the same keys in the
    same order, no whitespace, null for the absent cursor and
    prev_digest, the string values unescaped).  So wherever keccak-256
    tells the two texts apart, the digest field is not the hash of the
    canonical JSON, and it is not the digest that the contract
    computes. *)
Theorem digest_of_escaped_text :
  (forall (E : Ethers) (w : @wallet E) (e : Envelope.t),
     @createEnvelope E Sample.builder_args w = Normal e ->
     Envelope.digest e =
       VStr (Hex.hexlify (keccak256 (toUtf8Bytes Sample.hashed_text))) /\
     canonical_json e = Sample.canonical_text /\
     (exists c, on_chain e = Some c /\
                EnvelopeVerifier.canonical c = Sample.canonical_text) /\
     (keccak256 (toUtf8Bytes Sample.hashed_text) <>
        keccak256 (toUtf8Bytes Sample.canonical_text) ->
      Envelope.digest e <>
        VStr (Hex.hexlify (keccak256 (toUtf8Bytes (canonical_json e)))) /\
      forall c, on_chain e = Some c ->
        Envelope.digest e <>
          VStr (Hex.hexlify (EnvelopeVerifier.computeDigest c)))) /\
  Sample.hashed_text <> Sample.canonical_text /\
  String.length Sample.hashed_text = 229%nat /\
  String.length Sample.canonical_text = 215%nat.
Proof.
  split; [|split; [|split]]; [|vm_compute; discriminate|reflexivity..].
  intros E w e Hbuild.
  unfold createEnvelope in Hbuild.
  set (content := envelope_content Sample.builder_args) in *.
  assert (computeDigest content =
          Hex.hexlify (keccak256 (toUtf8Bytes Sample.hashed_text)))
    as Hdigest by reflexivity.
  rewrite Hdigest in Hbuild.
  unfold eip191_hash in Hbuild. rewrite getBytes_hexlify in Hbuild.
  cbn [of_option bind] in Hbuild.
  unfold serialize_signature in Hbuild.
  destruct (toBeHex _ 1) as [v|]; [|discriminate].
  cbn [bind] in Hbuild. injection Hbuild as <-.
  split; [reflexivity|]. split; [reflexivity|]. split.
  - eexists. split.
    + unfold on_chain.
      cbn [Envelope.name Envelope.method Envelope.params Envelope.result
           Envelope.meta Envelope.cache_ttl Envelope.cursor
           Envelope.prev_digest Envelope.digest Envelope.signature
           set_signature set_digest content envelope_content
           Sample.builder_args as_text is_string default_to Js.or truthy
           JSON_stringify].
      unfold ZeroHash. rewrite !getBytes_hexlify. reflexivity.
    + reflexivity.
  - intros Hne.
    assert (forall t : string,
              t = Sample.canonical_text ->
              VStr (Hex.hexlify (keccak256 (toUtf8Bytes Sample.hashed_text)))
              <> VStr (Hex.hexlify (keccak256 (toUtf8Bytes t)))) as Hdiff.
    { intros t -> Heq. apply Hne, hexlify_injective. congruence. }
    split.
    + apply Hdiff. reflexivity.
    + intros c Hc. apply Hdiff.
      unfold on_chain in Hc.
      cbn [Envelope.name Envelope.method Envelope.params Envelope.result
           Envelope.meta Envelope.cache_ttl Envelope.cursor
           Envelope.prev_digest Envelope.digest Envelope.signature
           set_signature set_digest content envelope_content
           Sample.builder_args as_text is_string default_to Js.or truthy
           JSON_stringify] in Hc.
      unfold ZeroHash in Hc. rewrite !getBytes_hexlify in Hc.
      injection Hc as <-. reflexivity.
Qed.

Lemma be_bytes_one (v : Z) :
  v = 27 \/ v = 28 ->
  toBeHex v 1 =
    Normal [match Byte.of_N (Z.to_N v) with Some b => b | None => x00 end].
Proof. intros [-> | ->]; reflexivity. Qed.

(** C2 (signature validity).  Under the contract of the library,
    [createEnvelope] returns an envelope whose signature is the 65 bytes
    r (32), s (32), v (1) of the signature that the wallet's key gives
    for keccak256("\x19Ethereum Signed Message:\n32" ++ digest), where
    digest is the 32 bytes of the envelope's digest field; v is 27 or 28,
    s is in the lower half of the group order, and recovering the signer
    from that message hash and the signature yields the address of the
    wallet. *)
Theorem signature_validity `{E : Ethers} {L : EthersLaws E}
    (p : Envelope.args) (w : wallet) :
  exists (e : Envelope.t) (h : bytes) (sg : Signature),
    createEnvelope p w = Normal e /\
    Envelope.digest e = VStr (Hex.hexlify h) /\
    length h = 32%nat /\
    sg = signingKey_sign w (keccak256 (toUtf8Bytes eip191_prefix ++ h)) /\
    Envelope.signature e =
      VStr (Hex.hexlify (sig_r sg ++ sig_s sg ++
              [match Byte.of_N (Z.to_N (sig_v sg)) with
               | Some b => b
               | None => x00
               end])) /\
    length (sig_r sg) = 32%nat /\
    length (sig_s sg) = 32%nat /\
    (sig_v sg = 27 \/ sig_v sg = 28) /\
    length (signature_bytes sg) = 65%nat /\
    be_value (sig_s sg) <= secp256k1_n / 2 /\
    recoverAddress (keccak256 (toUtf8Bytes eip191_prefix ++ h))
      (signature_bytes sg) = wallet_address w.
Proof.
  set (h := keccak256 (toUtf8Bytes (digest_preimage (envelope_content p)))).
  set (m := keccak256 (toUtf8Bytes eip191_prefix ++ h)).
  assert (length m = 32%nat) as Hm by apply keccak256_length.
  exists (set_signature
            (VStr (Hex.hexlify (signature_bytes (signingKey_sign w m))))
            (set_digest (VStr (Hex.hexlify h)) (envelope_content p))).
  exists h, (signingKey_sign w m).
  pose proof (sign_v_range w m Hm) as Hv.
  pose proof (sign_r_length w m Hm) as Hr.
  pose proof (sign_s_length w m Hm) as Hs.
  repeat split; try assumption; try reflexivity.
  - unfold createEnvelope, computeDigest, eip191_hash. fold h.
    rewrite getBytes_hexlify. cbn [of_option bind]. fold m.
    unfold serialize_signature. rewrite (be_bytes_one _ Hv).
    reflexivity.
  - apply keccak256_length.
  - unfold signature_bytes. rewrite !length_app, Hr, Hs. reflexivity.
  - now apply sign_low_s.
  - now apply recover_signed.
Qed.

Lemma sample_laws : EthersLaws Sample.ethers.
Proof.
  split.
  - intros b. change (length (take 32 (b ++ repeat x00 32)) = 32%nat).
    rewrite length_take, length_app, repeat_length. lia.
  - intros w h Hh. exact Hh.
  - intros w h Hh. reflexivity.
  - intros w h Hh. left. reflexivity.
  - intros w h Hh. vm_compute. discriminate.
  - intros w h Hh. reflexivity.
Qed.

Lemma signature_validity_witness :
  exists (e : Envelope.t) (h : bytes) (sg : Signature),
    @createEnvelope Sample.ethers Sample.builder_args tt = Normal e /\
    Envelope.digest e = VStr (Hex.hexlify h) /\
    length h = 32%nat /\
    sg = @signingKey_sign Sample.ethers tt
           (@keccak256 Sample.ethers (toUtf8Bytes eip191_prefix ++ h)) /\
    Envelope.signature e =
      VStr (Hex.hexlify (sig_r sg ++ sig_s sg ++
              [match Byte.of_N (Z.to_N (sig_v sg)) with
               | Some b => b
               | None => x00
               end])) /\
    length (sig_r sg) = 32%nat /\
    length (sig_s sg) = 32%nat /\
    (sig_v sg = 27 \/ sig_v sg = 28) /\
    length (signature_bytes sg) = 65%nat /\
    be_value (sig_s sg) <= secp256k1_n / 2 /\
    @recoverAddress Sample.ethers
      (@keccak256 Sample.ethers (toUtf8Bytes eip191_prefix ++ h))
      (signature_bytes sg) = @wallet_address Sample.ethers tt.
Proof.
  exact (@signature_validity Sample.ethers sample_laws Sample.builder_args tt).
Defined.

(** C10 (conflation of empty and absent).  [computeDigest] gives the same
    digest to two envelopes that differ only in that the cursor is the
    empty string in one and null in the other; likewise for a prev_digest
    that is the empty string or null, and for a cache_ttl that is 0 or
    absent. *)
Theorem digest_conflation `{E : Ethers} (e : Envelope.t) :
  computeDigest (with_cursor (VStr "") e) =
    computeDigest (with_cursor VNull e) /\
  computeDigest (with_prev_digest (VStr "") e) =
    computeDigest (with_prev_digest VNull e) /\
  computeDigest (with_cache_ttl (VNum 0) e) =
    computeDigest (with_cache_ttl VUndef e).
Proof. repeat split. Qed.

(** ** The sliding window *)

Lemma kept_all (c : Z) (l : list Z) :
  (forall y, In y l -> c <= y) -> kept c l = l.
Proof.
  induction l as [|x r IH]; intros Hall; [reflexivity|].
  cbn. destruct (Z.leb_spec c x) as [_|Hlt].
  - f_equal. apply IH. intros y Hy. apply Hall. now right.
  - specialize (Hall x (or_introl eq_refl)). lia.
Qed.

Lemma evict_ascending (c : Z) (l : list Z) :
  ascending l -> RateLimiter.evict c l = kept c l.
Proof.
  induction l as [|x r IH]; intros Hasc; [reflexivity|].
  destruct Hasc as [Hx Hr]. cbn [RateLimiter.evict].
  destruct (Z.ltb_spec x c) as [Hlt|Hge].
  - rewrite (IH Hr). cbn. destruct (Z.leb_spec c x); [lia|reflexivity].
  - symmetry. apply kept_all. intros y [<-|Hy]; [lia|].
    specialize (Hx y Hy). lia.
Qed.

Lemma ascending_kept (c : Z) (l : list Z) : ascending l -> ascending (kept c l).
Proof.
  induction l as [|x r IH]; intros Hasc; [exact I|].
  destruct Hasc as [Hx Hr]. cbn.
  destruct (c <=? x); [|now apply IH].
  split; [|now apply IH].
  intros y Hy. apply Hx. unfold kept in Hy.
  apply List.filter_In in Hy. tauto.
Qed.

Lemma kept_kept (c d : Z) (l : list Z) :
  c <= d -> kept d (kept c l) = kept d l.
Proof.
  intros Hcd. unfold kept. induction l as [|x r IH]; [reflexivity|].
  cbn. destruct (Z.leb_spec c x) as [Hc|Hc]; cbn.
  - destruct (d <=? x); now rewrite IH.
  - destruct (Z.leb_spec d x); [lia|exact IH].
Qed.

Lemma ascending_snoc (l : list Z) (t : Z) :
  ascending l -> (forall y, In y l -> y <= t) -> ascending (l ++ [t]).
Proof.
  induction l as [|x r IH]; intros Hasc Hle; [now split|].
  destruct Hasc as [Hx Hr]. split.
  - intros y Hy. apply List.in_app_or in Hy as [Hy|[<-|[]]].
    + now apply Hx.
    + apply Hle. now left.
  - apply IH; [exact Hr|]. intros y Hy. apply Hle. now right.
Qed.

Lemma kept_snoc (c t : Z) (l : list Z) :
  c <= t -> kept c (l ++ [t]) = kept c l ++ [t].
Proof.
  intros Hct. unfold kept. rewrite List.filter_app. cbn.
  destruct (Z.leb_spec c t); [reflexivity|lia].
Qed.

Lemma filter_length_le (p q : Z -> bool) (l : list Z) :
  (forall x, p x = true -> q x = true) ->
  (length (List.filter p l) <= length (List.filter q l))%nat.
Proof.
  intros Hpq. induction l as [|x r IH]; [reflexivity|].
  cbn. destruct (p x) eqn:Hp.
  - rewrite (Hpq x Hp). cbn. lia.
  - destruct (q x); cbn; lia.
Qed.

Lemma spaced_count (w n a : Z) (history : list Z) :
  spaced w n history -> count_within a w history <= Z.max 0 n.
Proof.
  unfold count_within.
  induction history as [|t earlier IH]; intros Hsp; [cbn; lia|].
  destruct Hsp as [Ht Hsp]. specialize (IH Hsp). cbn [List.filter].
  destruct ((a <=? t) && (t <=? a + w)) eqn:Hin; [|exact IH].
  apply andb_true_iff in Hin as [Ha Hb].
  apply Z.leb_le in Ha, Hb.
  assert (length (List.filter
                    (fun u : Z => ((a <=? u) && (u <=? a + w))%Z) earlier)
          <= length (kept (t - w) earlier))%nat as Hle.
  { apply filter_length_le. intros x Hx.
    apply andb_true_iff in Hx as [Hx _]. apply Z.leb_le in Hx.
    apply Z.leb_le. lia. }
  cbn [length]. lia.
Qed.

Lemma kept_rev_length (c : Z) (l : list Z) :
  length (kept c (rev l)) = length (kept c l).
Proof. unfold kept. now rewrite List.filter_rev, length_rev. Qed.

Section Window.

Variables (w n : Z) (k : option string).
Hypothesis w_nonneg : 0 <= w.

Local Abbreviation consistent := (consistent w n k).

Lemma consistent_empty (T : Z) : consistent (RateLimiter.mk w n ∅) [] T.
Proof.
  repeat split; try easy. exists (T - w). split; [lia|reflexivity].
Qed.

(** Evicting at a later time keeps the agreement. *)
Lemma evict_consistent (l : RateLimiter.t) (chron : list Z) (T now : Z) :
  consistent l chron T -> T <= now ->
  RateLimiter.evict (now - w) (RateLimiter.requests_of l k)
    = kept (now - w) chron.
Proof.
  intros (_ & _ & Hasc & _ & (c & Hc & Hreq) & _) Hnow.
  rewrite Hreq, evict_ascending by now apply ascending_kept.
  apply kept_kept. lia.
Qed.

Lemma consistent_evicted (l l' : RateLimiter.t) (chron : list Z) (T now : Z) :
  consistent l chron T -> T <= now ->
  RateLimiter.windowMs l' = w -> RateLimiter.maxRequests l' = n ->
  RateLimiter.requests_of l' k = kept (now - w) chron ->
  consistent l' chron now.
Proof.
  intros (_ & _ & Hasc & Hle & _ & Hsp) Hnow Hw Hn Hreq.
  repeat split; try assumption.
  - intros t Ht. specialize (Hle t Ht). lia.
  - exists (now - w). split; [lia|exact Hreq].
Qed.

Lemma consistent_untouched (l l' : RateLimiter.t) (chron : list Z) (T now : Z) :
  consistent l chron T -> T <= now ->
  RateLimiter.windowMs l' = w -> RateLimiter.maxRequests l' = n ->
  RateLimiter.requests_of l' k = RateLimiter.requests_of l k ->
  consistent l' chron now.
Proof.
  intros (_ & _ & Hasc & Hle & (c & Hc & Hreq) & Hsp) Hnow Hw Hn Hsame.
  repeat split; try assumption.
  - intros t Ht. specialize (Hle t Ht). lia.
  - exists c. split; [lia|]. now rewrite Hsame.
Qed.

Lemma consistent_step (l : RateLimiter.t) (chron : list Z) (T : Z)
    (c : limiter_call) :
  consistent l chron T -> T <= call_time c ->
  consistent (snd (limiter_step k l c))
    (chron ++ fst (limiter_step k l c)) (call_time c).
Proof.
  intros Hc Hnow.
  pose proof Hc as (Hw & Hn & Hasc & Hle & _ & Hsp).
  destruct c as [key now|key now|now]; cbn [call_time] in *.
  - (* check *)
    unfold limiter_step, RateLimiter.check. rewrite Hw, Hn.
    destruct (decide (key = k)) as [->|Hne].
    + rewrite (evict_consistent l chron T now Hc Hnow).
      destruct (Z.leb_spec n (Z.of_nat (length (kept (now - w) chron))))
        as [Hfull|Hroom]; cbn [fst snd andb].
      * rewrite app_nil_r.
        apply (consistent_evicted l _ chron T now); try easy.
        unfold RateLimiter.requests_of. cbn.
        now rewrite lookup_insert_eq.
      * rewrite bool_decide_eq_true_2 by reflexivity.
        repeat split; try easy.
        -- apply ascending_snoc; [exact Hasc|].
           intros y Hy. specialize (Hle y Hy). lia.
        -- intros t Ht. apply List.in_app_or in Ht as [Ht|[<-|[]]]; [|lia].
           specialize (Hle t Ht). lia.
        -- exists (now - w). split; [lia|].
           unfold RateLimiter.requests_of. cbn.
           rewrite lookup_insert_eq. symmetry. apply kept_snoc. lia.
        -- rewrite rev_app_distr. cbn [rev app spaced].
           split; [|exact Hsp]. now rewrite kept_rev_length.
    + assert (forall r' ok,
        consistent
          (RateLimiter.mk w n (<[key := r']> (RateLimiter.store l)))
          (chron ++ (if ok && bool_decide (key = k) then [now] else [])) now)
        as Hother.
      { intros r' ok. rewrite bool_decide_eq_false_2 by exact Hne.
        rewrite andb_false_r, app_nil_r.
        apply (consistent_untouched l _ chron T now); try easy.
        unfold RateLimiter.requests_of. cbn.
        now rewrite lookup_insert_ne. }
      destruct (n <=? _); cbn [fst snd]; apply Hother.
  - (* remaining *)
    unfold limiter_step, RateLimiter.remaining. cbn [fst]. rewrite app_nil_r.
    destruct (RateLimiter.store l !! key) as [requests|] eqn:Hkey;
      cbn [snd].
    + destruct (decide (key = k)) as [->|Hne].
      * apply (consistent_evicted l _ chron T now); try easy.
        unfold RateLimiter.requests_of at 1. cbn.
        rewrite lookup_insert_eq.
        rewrite <- (evict_consistent l chron T now Hc Hnow).
        unfold RateLimiter.requests_of. now rewrite Hkey, Hw.
      * apply (consistent_untouched l _ chron T now); try easy.
        unfold RateLimiter.requests_of. cbn.
        now rewrite lookup_insert_ne.
    + now apply (consistent_untouched l _ chron T now).
  - (* cleanup *)
    unfold limiter_step. cbn [fst snd]. rewrite app_nil_r.
    apply (consistent_evicted l _ chron T now); try easy.
    rewrite <- (evict_consistent l chron T now Hc Hnow).
    unfold RateLimiter.requests_of, RateLimiter.cleanup. cbn.
    rewrite lookup_omap, Hw.
    destruct (RateLimiter.store l !! k) as [requests|]; cbn; [|reflexivity].
    now destruct (RateLimiter.evict (now - w) requests).
Qed.

Lemma consistent_run (calls : list limiter_call) :
  forall (l : RateLimiter.t) (chron : list Z) (T : Z),
    consistent l chron T -> monotone T calls = true ->
    spaced w n (rev (chron ++ admitted k l calls)).
Proof.
  induction calls as [|c r IH]; intros l chron T Hc Hmono.
  - cbn. rewrite app_nil_r. apply Hc.
  - cbn [monotone] in Hmono. apply andb_true_iff in Hmono as [Hnow Hmono].
    apply Z.leb_le in Hnow.
    pose proof (consistent_step l chron T c Hc Hnow) as Hstep.
    cbn [admitted]. destruct (limiter_step k l c) as [a l'].
    rewrite app_assoc. exact (IH l' (chron ++ a) (call_time c) Hstep Hmono).
Qed.

End Window.

Lemma count_within_rev (a w : Z) (l : list Z) :
  count_within a w (rev l) = count_within a w l.
Proof. unfold count_within. now rewrite List.filter_rev, length_rev. Qed.

Lemma sliding_window (w n : Z) (k : option string) (start a : Z)
    (calls : list limiter_call) :
  0 <= w -> monotone start calls = true ->
  count_within a w (admitted k (RateLimiter.mk w n ∅) calls) <= Z.max 0 n.
Proof.
  intros Hw Hmono.
  rewrite <- count_within_rev. apply spaced_count.
  apply (consistent_run w n k Hw calls (RateLimiter.mk w n ∅) [] start);
    [apply consistent_empty | exact Hmono].
Qed.

(** C5 (sliding window), as amended.  Under a limiter with window [w]
    and maximum [n] that starts empty, whatever the calls of [check],
    [remaining] and [cleanup], as long as the readings of the clock at
    these calls never decrease, at most [n] requests of a key are
    admitted in any interval of length [w]; the ip limiter has the window
    60000 ms and the maximum 100, the apiKey limiter 60000 ms and 1000,
    and the middleware uses the apiKey limiter for a request whose
    X-API-Key header has a value that is not empty, and the ip limiter
    for every other request (no such header, or one with an empty
    value); a denied request leaves for its key the evicted list, to
    which nothing is appended; and the middleware answers a denied
    request with 429 and the body
    {error: "Rate limit exceeded", retryAfter: 60, remaining: 0}. *)
Theorem rate_limit_window :
  (forall (w n : Z) (k : option string) (start a : Z)
          (calls : list limiter_call),
      0 <= w -> monotone start calls = true ->
      count_within a w (admitted k (RateLimiter.mk w n ∅) calls)
        <= Z.max 0 n) /\
  ipRateLimiter = RateLimiter.mk 60000 100 ∅ /\
  apiKeyRateLimiter = RateLimiter.mk 60000 1000 ∅ /\
  (forall (s : server) (req : request),
      limiter_of s req =
        match x_api_key req with
        | Some key => if String.eqb key "" then ipLimiter s
                      else apiKeyLimiter s
        | None => ipLimiter s
        end) /\
  (forall (l : RateLimiter.t) (key : option string) (now : Z),
      fst (RateLimiter.check l key now) = false ->
      RateLimiter.requests_of (snd (RateLimiter.check l key now)) key =
        RateLimiter.evict (now - RateLimiter.windowMs l)
          (RateLimiter.requests_of l key)) /\
  (forall (H : Host) (req : request) (clk : clock) (s : server),
      admits s req clk = false ->
      fst (rateLimitMiddleware req clk s) =
        Normal (Respond
          (mkResponse 429 []
             (VObj [ ("error", VStr "Rate limit exceeded");
                     ("retryAfter", VNum 60);
                     ("remaining", VNum 0) ])))).
Proof.
  split; [|split; [|split; [|split; [|split]]]].
  - intros w n k start a calls. apply sliding_window.
  - reflexivity.
  - reflexivity.
  - intros s req. unfold limiter_of, present.
    destruct (x_api_key req) as [key|]; [|reflexivity].
    now destruct (String.eqb key "").
  - intros l key now. unfold RateLimiter.check.
    destruct (RateLimiter.maxRequests l <=? _); [|discriminate].
    intros _. unfold RateLimiter.requests_of at 1. cbn.
    now rewrite lookup_insert_eq.
  - intros H req clk s. unfold admits, rateLimitMiddleware.
    destruct (RateLimiter.check _ _ _) as [[|] l']; [discriminate|].
    reflexivity.
Qed.

Lemma rate_limit_window_witness :
  count_within 10 60000
    (admitted (Some "a") (RateLimiter.mk 60000 2 ∅)
       [ Check (Some "a") 10; Check (Some "a") 20; Remaining (Some "a") 20;
         Check (Some "a") 60010; Cleanup 60011; Check (Some "a") 60011 ])
    <= Z.max 0 2.
Proof.
  apply (proj1 rate_limit_window 60000 2 (Some "a") 0 10); [lia|reflexivity].
Defined.

(** C5 as stated fails in two places.  A request that carries the
    header X-API-Key with an empty value is counted by the ip limiter,
    whose maximum is 100, although the header is present.  And when the
    clock is set back between two calls, a limiter admits more than its
    maximum inside one window: with the maximum 2 and the window 10,
    the requests at the readings 0, 1, 100 and 5 are all admitted, three
    of them between 0 and 10. *)
Lemma limiter_selection_and_clock :
  (x_api_key Sample.empty_key = Some "" /\
   limiter_of initial Sample.empty_key = ipRateLimiter /\
   RateLimiter.maxRequests (limiter_of initial Sample.empty_key) = 100) /\
  (Sample.small_limiter = RateLimiter.mk 10 2 ∅ /\
   admitted (Some "a") Sample.small_limiter Sample.backward_calls =
     [0; 1; 100; 5] /\
   count_within 0 10
     (admitted (Some "a") Sample.small_limiter Sample.backward_calls) = 3 /\
   monotone 0 Sample.backward_calls = false).
Proof. repeat split. Qed.

(** With the maximum 2, the third of three requests in one window is
    denied, and a request after the window is admitted again. *)
Example three_requests :
  admitted (Some "a") (RateLimiter.mk 60000 2 ∅)
    [ Check (Some "a") 10; Check (Some "a") 20; Remaining (Some "a") 20;
      Check (Some "a") 60010; Cleanup 60011; Check (Some "a") 60011 ]
  = [10; 20; 60011].
Proof. vm_compute. reflexivity. Qed.

(** ** The lookup pipeline *)

Lemma assoc_set_prop_ne (k k' : string) (v : value)
    (l : list (string * value)) :
  k <> k' -> assoc k (set_prop k' v l) = assoc k l.
Proof.
  intros Hne. apply String.eqb_neq in Hne.
  induction l as [|[k0 v0] r IH]; cbn.
  - now rewrite Hne.
  - destruct (String.eqb k' k0) eqn:H0; cbn.
    + apply String.eqb_eq in H0. subst k0. now rewrite Hne.
    + destruct (String.eqb k k0); [reflexivity|exact IH].
Qed.

(** The validator rewrites the fields name and params only. *)
Lemma validate_keeps `{E : Ethers} (k : string)
    (body : list (string * value)) :
  k <> "name" -> k <> "params" ->
  assoc k (snd (validate body)) = assoc k body.
Proof.
  intros Hn Hp. unfold validate.
  destruct (truthy (assoc "name" body)); cbn [snd].
  - match goal with
    | |- context [set_prop "name" ?v body] => set (b1 := set_prop "name" v body)
    end.
    assert (assoc k b1 = assoc k body) as Hb1
      by (now apply assoc_set_prop_ne).
    destruct (truthy (assoc "params" b1)); [|exact Hb1].
    destruct (is_object (assoc "params" b1)); [|exact Hb1].
    cbn [snd]. rewrite assoc_set_prop_ne by exact Hp. exact Hb1.
  - destruct (truthy (assoc "params" body)); [|reflexivity].
    destruct (is_object (assoc "params" body)); [|reflexivity].
    cbn [snd]. now apply assoc_set_prop_ne.
Qed.

Lemma with_limiter_keeps (s : server) (req : request) (l : RateLimiter.t) :
  trace (with_limiter s req l) = trace s /\
  metrics (with_limiter s req l) = metrics s.
Proof. unfold with_limiter. now destruct (present (x_api_key req)). Qed.

Lemma middleware_denied `{H : Host} (req : request) (clk : clock)
    (s : server) :
  admits s req clk = false ->
  exists s',
    rateLimitMiddleware req clk s = (Normal (Respond rate_limited), s') /\
    trace s' = trace s /\ metrics s' = metrics s.
Proof.
  unfold admits, rateLimitMiddleware.
  destruct (RateLimiter.check _ _ _) as [[|] l']; [discriminate|].
  intros _. eexists. split; [reflexivity|]. apply with_limiter_keeps.
Qed.

Lemma middleware_admitted `{H : Host} (req : request) (clk : clock)
    (s : server) :
  admits s req clk = true ->
  exists h s',
    rateLimitMiddleware req clk s = (Normal (Next h), s') /\
    trace s' = trace s /\ metrics s' = metrics s.
Proof.
  unfold admits, rateLimitMiddleware.
  destruct (RateLimiter.check _ _ _) as [[|] l']; [|discriminate].
  intros _. destruct (RateLimiter.remaining _ _ _) as [rest l''].
  eexists _, _. split; [reflexivity|]. apply with_limiter_keeps.
Qed.

Lemma validateRequest_spec `{E : Ethers} (body : list (string * value)) :
  validateRequest body =
    match fst (validate body) with
    | [] => Next (snd (validate body))
    | errors => Respond (validation_failed errors)
    end.
Proof.
  unfold validateRequest. destruct (validate body) as [[|e errors] b];
    reflexivity.
Qed.









(** The [catch] block of the handler cannot name [functionName]: reading
    it throws before anything is recorded or answered. *)
Lemma lookup_catch_throws (clk : clock) (e : error) (s : server) :
  lookup_catch clk e s =
    (Throw (mkError "ReferenceError" "functionName is not defined"), s).
Proof. reflexivity. Qed.

Lemma functionName_scoped :
  existsb (String.eqb "functionName") try_scope = true /\
  existsb (String.eqb "functionName") catch_scope = false.
Proof. split; reflexivity. Qed.

(** Whatever the [try] block throws, the handler's promise is rejected
    with the ReferenceError; no 500 is sent and no error is counted. *)
Lemma lookup_failure `{E : Ethers} `{H : Host} (w : wallet)
    (body : list (string * value)) (clk : clock) (s s' : server)
    (e : error) :
  lookup_try w body clk s = (Throw e, s') ->
  lookup w body clk s =
    (Throw (mkError "ReferenceError" "functionName is not defined"), s').
Proof.
  intros Htry. unfold lookup, try_catch. rewrite Htry.
  apply lookup_catch_throws.
Qed.

Lemma lookup_normal `{E : Ethers} `{H : Host} (w : wallet)
    (body : list (string * value)) (clk : clock) (s s' : server)
    (r : response) :
  lookup w body clk s = (Normal r, s') ->
  lookup_try w body clk s = (Normal r, s').
Proof.
  unfold lookup, try_catch.
  destruct (lookup_try w body clk s) as [[r0|e] s0]; [easy|].
  rewrite lookup_catch_throws. discriminate.
Qed.

(** C8 (unknown method): the gateway at a lookup of the unregistered
    method "nosuch".  [executeCompute] throws the error that names the
    method, but the handler then fails in its [catch] block: its promise
    is rejected with a ReferenceError, no response is written and no
    error is counted. *)
Theorem unknown_method_unanswered :
  @executeCompute Sample.host (VStr "nosuch") (VObj []) =
    Throw (mkError "Error" "Unknown compute function: nosuch") /\
  fst (@post_lookup Sample.ethers Sample.host tt Sample.unknown_lookup
         Sample.now initial) =
    Throw (mkError "ReferenceError" "functionName is not defined") /\
  Metrics.errors
    (metrics (snd (@post_lookup Sample.ethers Sample.host tt
                     Sample.unknown_lookup Sample.now initial))) = 0 /\
  Metrics.total
    (metrics (snd (@post_lookup Sample.ethers Sample.host tt
                     Sample.unknown_lookup Sample.now initial))) = 0.
Proof. repeat split; vm_compute; reflexivity. Qed.

(** ** The call-data decoder *)

Ltac run_decoder :=
  unfold decode_call_data, try_catch, mbind, lift, emit, ret; cbn [fst snd].

(** C4 (decoder defaults), as amended.  An empty or missing data field
    decodes to the method "pricefeed" and the empty params, and the
    process is unchanged (no warning is logged).  When the ABI decoding
    of a hexadecimal data fails, or the JSON parse of a string data
    fails, the decoder falls back to the method "pricefeed" and the
    params {}.  When the decoded params bytes do not parse, the params
    fall back to {} and the method is the decoded one ("pricefeed" only
    when the decoded name is empty). *)
Theorem decoder_fallbacks :
  (forall (E : Ethers) (H : Host) (data : value) (s : server),
      has_content data = false ->
      decode_call_data data s = (Normal (VStr "pricefeed", VObj []), s)) /\
  (has_content VUndef = false /\ has_content (VStr "") = false) /\
  (forall (E : Ethers) (H : Host) (d : string) (s : server) (e : error),
      has_content (VStr d) = true ->
      starts_with "0x" d = true ->
      abi_decode [TString; TBytes] d = Throw e ->
      fst (decode_call_data (VStr d) s) =
        Normal (VStr "pricefeed", VObj [])) /\
  (forall (E : Ethers) (H : Host) (d : string) (s : server) (e : error),
      has_content (VStr d) = true ->
      starts_with "0x" d = false ->
      JSON_parse d = Throw e ->
      fst (decode_call_data (VStr d) s) =
        Normal (VStr "pricefeed", VObj [])) /\
  (forall (E : Ethers) (H : Host) (d : string) (s : server)
          (decoded : list value) (e : error),
      has_content (VStr d) = true ->
      starts_with "0x" d = true ->
      abi_decode [TString; TBytes] d = Normal decoded ->
      truthy (nth 1 decoded VUndef) && nonempty (nth 1 decoded VUndef)
        = true ->
      (toUtf8String (nth 1 decoded VUndef) = Throw e \/
       exists text,
         toUtf8String (nth 1 decoded VUndef) = Normal text /\
         JSON_parse text = Throw e) ->
      fst (decode_call_data (VStr d) s) =
        Normal (Js.or (nth 0 decoded VUndef) (VStr "pricefeed"), VObj [])).
Proof.
  split; [|split; [|split; [|split]]].
  - intros E H data s Hc. unfold decode_call_data. now rewrite Hc.
  - split; reflexivity.
  - intros E H d s e Hc Hx Hdec. run_decoder.
    now rewrite Hc, Hx, Hdec.
  - intros E H d s e Hc Hx Hparse. run_decoder.
    now rewrite Hc, Hx, Hparse.
  - intros E H d s decoded e Hc Hx Hdec Hbytes Hfail. run_decoder.
    rewrite Hc, Hx, Hdec, Hbytes.
    destruct Hfail as [Hutf|(text & Hutf & Hparse)].
    + now rewrite Hutf.
    + now rewrite Hutf, Hparse.
Qed.

(** C4 as stated fails: the call data that encodes the method "daovotes"
    with params bytes that are not JSON decodes to the method "daovotes",
    not to "pricefeed". *)
Lemma unparsed_params_keep_method :
  @abi_decode Sample.ethers [TString; TBytes] Sample.call_data =
    Normal [VStr "daovotes"; VStr "0x6e6f74206a736f6e"] /\
  @toUtf8String Sample.ethers (VStr "0x6e6f74206a736f6e") =
    Normal "not json" /\
  @JSON_parse Sample.host "not json" =
    Throw (mkError "SyntaxError" "Unexpected token in JSON") /\
  fst (@decode_call_data Sample.ethers Sample.host (VStr Sample.call_data)
         initial) = Normal (VStr "daovotes", VObj []) /\
  VStr "daovotes" <> VStr "pricefeed".
Proof. repeat split; try (vm_compute; reflexivity). discriminate. Qed.

(** The four cases of the decoder on the stand-ins. *)
Example decoder_cases :
  @decode_call_data Sample.ethers Sample.host (VStr "") initial =
    (Normal (VStr "pricefeed", VObj []), initial) /\
  fst (@decode_call_data Sample.ethers Sample.host (VStr "0x00") initial) =
    Normal (VStr "pricefeed", VObj []) /\
  fst (@decode_call_data Sample.ethers Sample.host (VStr "{") initial) =
    Normal (VStr "pricefeed", VObj []) /\
  trace (snd (@decode_call_data Sample.ethers Sample.host
                (VStr Sample.call_data) initial)) =
    [ EAbiDecode; EJsonParse;
      EWarn "Could not parse params JSON: Unexpected token in JSON" ].
Proof. repeat split; vm_compute; reflexivity. Qed.

(** ** The two response formats *)

Lemma envelope_path_inv `{E : Ethers} (w : wallet)
    (body : list (string * value)) (functionName params result : value)
    (clk : clock) (s s' : server) (r : response) :
  envelope_path w body functionName params result clk s = (Normal r, s') ->
  exists args e hex,
    lookup_args body functionName params result clk = Normal args /\
    createEnvelope args w = Normal e /\
    abi_encode wire_types (wire_values e) = Normal hex /\
    r = mkResponse 200 []
          (VObj [ ("data", VStr hex); ("envelope", envelope_value e) ]).
Proof.
  unfold envelope_path, mbind, lift, emit, ret, record_success,
    update_metrics.
  destruct (lookup_args body functionName params result clk) as [args|]
    eqn:Hargs; [|discriminate].
  destruct (createEnvelope args w) as [e|] eqn:Hbuild; [|discriminate].
  destruct (abi_encode wire_types (wire_values e)) as [hex|] eqn:Henc;
    [|discriminate].
  cbn. intros [= <- _]. now exists args, e, hex.
Qed.

Lemma legacy_path_inv `{E : Ethers} (w : wallet)
    (functionName result : value) (clk : clock) (s s' : server)
    (r : response) :
  legacy_path w functionName result clk s = (Normal r, s') ->
  exists text sg hex,
    stringify result = Some text /\
    signResult result w = Normal sg /\
    abi_encode legacy_types (legacy_values text sg) = Normal hex /\
    r = mkResponse 200 [] (VObj [ ("data", VStr hex) ]).
Proof.
  unfold legacy_path, mbind, lift, emit, ret, record_success,
    update_metrics.
  destruct (stringify result) as [text|] eqn:Htext; cbn.
  - destruct (signResult result w) as [sg|] eqn:Hsig; [|discriminate].
    cbn. destruct (abi_encode legacy_types (legacy_values text sg)) as [hex|]
      eqn:Henc; [|discriminate].
    cbn. intros [= <- _]. now exists text, sg, hex.
  - unfold signResult. rewrite Htext. discriminate.
Qed.









(** The legacy format on the stand-ins: two fields are encoded and the
    response has the data key only. *)
Example legacy_response :
  exists r hex,
    fst (@post_lookup Sample.ethers Sample.host tt Sample.legacy_lookup
           Sample.now initial) = Normal r /\
    status r = 200 /\ json r = VObj [ ("data", VStr hex) ].
Proof. eexists _, _. repeat split. Qed.

(** ** Defaults of the builder *)

(** C7 (defaults), as amended.  In [createEnvelope] a missing cacheTtl
    defaults to 30 and a given one is kept as it is, so that the built
    cache_ttl is 30 exactly when the input is missing or is 30 itself; a
    missing cursor defaults to null, a missing prevDigest to null and a
    missing meta to the string "{}".  The lookup handler passes
    [params.cacheTtl || 30] to the builder. *)
Theorem envelope_defaults `{E : Ethers} (p : Envelope.args) (w : wallet)
    (e : Envelope.t) :
  createEnvelope p w = Normal e ->
  (Envelope.a_cacheTtl p = VUndef -> Envelope.cache_ttl e = VNum 30) /\
  (Envelope.a_cacheTtl p <> VUndef ->
     Envelope.cache_ttl e = Envelope.a_cacheTtl p) /\
  (Envelope.cache_ttl e = VNum 30 <->
     Envelope.a_cacheTtl p = VUndef \/ Envelope.a_cacheTtl p = VNum 30) /\
  (Envelope.a_cursor p = VUndef -> Envelope.cursor e = VNull) /\
  (Envelope.a_prevDigest p = VUndef -> Envelope.prev_digest e = VNull) /\
  (Envelope.a_meta p = VUndef -> Envelope.meta e = VStr "{}") /\
  (forall body functionName params result clk args,
     lookup_args body functionName params result clk = Normal args ->
     Envelope.a_cacheTtl args = Js.or (Js.get "cacheTtl" params) (VNum 30)).
Proof.
  intros Hb. destruct (createEnvelope_inv p w e Hb) as [s ->].
  cbn [set_signature set_digest envelope_content Envelope.cursor
       Envelope.prev_digest Envelope.cache_ttl Envelope.meta].
  repeat split.
  - now intros ->.
  - now destruct (Envelope.a_cacheTtl p).
  - destruct (Envelope.a_cacheTtl p); cbn; intros Heq; auto; discriminate.
  - intros [-> | ->]; reflexivity.
  - now intros ->.
  - now intros ->.
  - now intros ->.
  - intros body functionName params result clk args. unfold lookup_args, bind.
    destruct (member "cursor" params); [|discriminate].
    destruct (member "prevDigest" params); [|discriminate].
    destruct (member "cacheTtl" params) as [t|] eqn:Ht; [|discriminate].
    intros [= <-]. cbn. unfold member in Ht.
    destruct params; try discriminate; now injection Ht as <-.
Qed.

Lemma envelope_defaults_witness :
  exists e : Envelope.t,
    @createEnvelope Sample.ethers Sample.builder_args tt = Normal e /\
    Envelope.cache_ttl e = VNum 30 /\
    Envelope.cursor e = VNull /\
    Envelope.prev_digest e = VNull /\
    Envelope.meta e = VStr "{}".
Proof.
  eexists. split; [reflexivity|].
  destruct (@envelope_defaults Sample.ethers Sample.builder_args tt _
              eq_refl) as (Ht & _ & _ & Hc & Hd & Hm & _).
  split; [exact (Ht eq_refl)|].
  split; [exact (Hc eq_refl)|].
  split; [exact (Hd eq_refl)|exact (Hm eq_refl)].
Defined.

(** C7 as stated fails: the built cache_ttl is also 30 when the field is
    given -- as 30 to the builder, or as 0 in the params of a lookup. *)
Lemma cache_ttl_thirty_when_given :
  (exists e,
     @createEnvelope Sample.ethers Sample.thirty_args tt = Normal e /\
     Envelope.cache_ttl e = VNum 30 /\
     Envelope.a_cacheTtl Sample.thirty_args = VNum 30) /\
  (Js.get "cacheTtl"
     (Js.get "params" (assoc "data" (body Sample.uncached_lookup))) = VNum 0 /\
   exists r,
     fst (@post_lookup Sample.ethers Sample.host tt Sample.uncached_lookup
            Sample.now initial) = Normal r /\
     Js.get "cache_ttl" (Js.get "envelope" (json r)) = VNum 30).
Proof.
  split.
  - eexists. repeat split.
  - split; [reflexivity|]. eexists. split; vm_compute; reflexivity.
Qed.

(** * Further properties of the gateway *)

(** ** canonicalizeJSON *)

Lemma set_prop_fresh (k : string) (v : value) (l : list (string * value)) :
  ~ In k (keys l) -> set_prop k v l = l ++ [(k, v)].
Proof.
  induction l as [|[k' v'] r IH]; cbn; intros Hn; [reflexivity|].
  destruct (String.eqb k k') eqn:E.
  - apply String.eqb_eq in E. subst. exfalso. apply Hn. now left.
  - f_equal. apply IH. intros Hin. apply Hn. now right.
Qed.

Lemma fold_set_prop (f : string -> value) (ks : list string) :
  forall acc,
    NoDup ks -> (forall k, In k ks -> ~ In k (keys acc)) ->
    fold_left (fun acc key => set_prop key (f key) acc) ks acc =
      acc ++ map (fun k => (k, f k)) ks.
Proof.
  induction ks as [|k0 ks IH]; intros acc Hnd Hfresh; cbn.
  - now rewrite app_nil_r.
  - inversion Hnd as [|? ? Hk0 Hks]; subst.
    rewrite set_prop_fresh by (apply Hfresh; now left).
    rewrite IH.
    + now rewrite <- app_assoc.
    + exact Hks.
    + intros k Hk. unfold keys. rewrite map_app, in_app_iff. cbn.
      intros [Hin | [Heq | []]].
      * apply (Hfresh k); [now right | exact Hin].
      * subst. apply Hk0. now apply list_elem_of_In.
Qed.

Lemma insert_sorted_perm (k : string) (l : list string) :
  Permutation (insert_sorted k l) (k :: l).
Proof.
  induction l as [|k' r IH]; cbn; [reflexivity|].
  destruct (String.leb k k'); [reflexivity|].
  rewrite IH. apply perm_swap.
Qed.

Lemma sort_perm (l : list string) : Permutation (Js.sort l) l.
Proof.
  induction l as [|k r IH]; cbn; [reflexivity|].
  rewrite insert_sorted_perm. now constructor.
Qed.

Lemma insert_sorted_Sorted (k : string) (l : list string) :
  Sorted String.le l -> Sorted String.le (insert_sorted k l).
Proof.
  induction 1 as [|k' r Hs IH Hhd]; cbn.
  - repeat constructor.
  - destruct (String.leb k k') eqn:E.
    + constructor; [now constructor|]. constructor.
      unfold String.le. now rewrite E.
    + constructor; [exact IH|].
      assert (Hle : String.le k' k).
      { destruct (String.leb_total k k') as [H|H]; [congruence|].
        unfold String.le. now rewrite H. }
      destruct r as [|k'' r]; cbn; [now constructor|].
      destruct (String.leb k k''); constructor; [exact Hle|].
      now inversion Hhd.
Qed.

Lemma sort_Sorted (l : list string) : Sorted String.le (Js.sort l).
Proof.
  induction l as [|k r IH]; cbn; [constructor|].
  now apply insert_sorted_Sorted.
Qed.

Lemma sort_unique (l l' : list string) :
  Permutation l l' -> Js.sort l = Js.sort l'.
Proof.
  intros Hp. apply (Sorted_unique String.le); try apply sort_Sorted.
  now rewrite !sort_perm.
Qed.

Lemma assoc_key (k : string) (obj : list (string * value)) :
  In k (keys obj) -> In (k, assoc k obj) obj.
Proof.
  induction obj as [|[k' v'] r IH]; cbn; [tauto|].
  intros Hin. destruct (String.eqb k k') eqn:E.
  - apply String.eqb_eq in E. subst. now left.
  - right. apply IH. destruct Hin as [Heq|Hin]; [|exact Hin].
    subst. now rewrite String.eqb_refl in E.
Qed.

Lemma assoc_in (k : string) (v : value) (obj : list (string * value)) :
  NoDup (keys obj) -> In (k, v) obj -> assoc k obj = v.
Proof.
  induction obj as [|[k' v'] r IH]; cbn; [tauto|].
  intros Hnd Hin. inversion Hnd as [|? ? Hk Hr]; subst.
  destruct Hin as [Heq|Hin].
  - inversion Heq; subst. now rewrite String.eqb_refl.
  - destruct (String.eqb k k') eqn:E.
    + apply String.eqb_eq in E. subst. exfalso. apply Hk.
      apply list_elem_of_In. unfold keys.
      change k' with (fst (k', v)). now apply in_map.
    + now apply IH.
Qed.

Lemma canonicalizeJSON_form (obj : list (string * value)) :
  NoDup (keys obj) ->
  canonicalizeJSON obj =
    stringify_object (map (fun k => (k, assoc k obj)) (Js.sort (keys obj))).
Proof.
  intros Hnd. unfold canonicalizeJSON. f_equal.
  rewrite (fold_set_prop (fun k => assoc k obj)).
  - reflexivity.
  - now rewrite sort_perm.
  - cbn. tauto.
Qed.

(** X1.  [canonicalizeJSON] writes the properties of an object with
    plain, distinct names in the ascending order of their names, whatever
    the order in which they were inserted: the text is that of
    [JSON.stringify] on a rearrangement of the object whose keys are
    sorted.  (The values are written as they are: a nested object keeps
    its own order.) *)
Theorem canonicalizeJSON_sorts (obj : list (string * value)) :
  NoDup (keys obj) ->
  forallb plain_name (keys obj) = true ->
  exists sorted,
    Permutation sorted obj /\
    Sorted String.le (keys sorted) /\
    canonicalizeJSON obj = stringify_object sorted.
Proof.
  intros Hnd _.
  exists (map (fun k => (k, assoc k obj)) (Js.sort (keys obj))).
  assert (Hkeys : keys (map (fun k => (k, assoc k obj)) (Js.sort (keys obj)))
                  = Js.sort (keys obj)).
  { unfold keys at 1. rewrite map_map. cbn. apply map_id. }
  split; [|split].
  - apply NoDup_Permutation.
    + apply (NoDup_fmap_1 fst).
      change (NoDup (keys (map (fun k => (k, assoc k obj))
                             (Js.sort (keys obj))))).
      rewrite Hkeys. now rewrite sort_perm.
    + now apply (NoDup_fmap_1 fst).
    + intros [k v]. rewrite !list_elem_of_In, in_map_iff. split.
      * intros (k0 & Heq & Hin). inversion Heq; subst.
        apply assoc_key. apply list_elem_of_In.
        rewrite <- (sort_perm (keys obj)). now apply list_elem_of_In.
      * intros Hin. exists k. split.
        -- f_equal. now apply assoc_in.
        -- apply list_elem_of_In. rewrite sort_perm. apply list_elem_of_In.
           unfold keys. change k with (fst (k, v)). now apply in_map.
  - rewrite Hkeys. apply sort_Sorted.
  - now apply canonicalizeJSON_form.
Qed.

Lemma canonicalizeJSON_sorts_witness :
  exists sorted,
    Permutation sorted Fixture.listing /\
    Sorted String.le (keys sorted) /\
    canonicalizeJSON Fixture.listing = stringify_object sorted.
Proof.
  apply (canonicalizeJSON_sorts Fixture.listing).
  - unfold Fixture.listing, keys. cbn.
    repeat constructor; rewrite ?elem_of_cons, ?elem_of_nil;
      intuition discriminate.
  - vm_compute. reflexivity.
Defined.

(** X2.  The canonical text does not depend on the order of the
    properties: two objects with the same properties in different orders
    have the same canonical text (and so the same digest). *)
Theorem canonicalizeJSON_order_independent (obj obj' : list (string * value)) :
  NoDup (keys obj) -> Permutation obj obj' ->
  canonicalizeJSON obj = canonicalizeJSON obj'.
Proof.
  intros Hnd Hp.
  assert (Hk : Permutation (keys obj) (keys obj'))
    by (unfold keys; now apply Permutation_map).
  assert (Hnd' : NoDup (keys obj')) by now rewrite <- Hk.
  rewrite !canonicalizeJSON_form by assumption.
  rewrite <- (sort_unique _ _ Hk). f_equal.
  apply map_ext_in. intros k Hin. f_equal.
  symmetry. apply assoc_in; [exact Hnd'|].
  apply list_elem_of_In. rewrite <- Hp. apply list_elem_of_In.
  apply assoc_key. apply list_elem_of_In.
  rewrite <- (sort_perm (keys obj)). now apply list_elem_of_In.
Qed.

Lemma canonicalizeJSON_order_independent_witness :
  canonicalizeJSON Fixture.listing = canonicalizeJSON Fixture.relisting.
Proof.
  apply canonicalizeJSON_order_independent.
  - unfold Fixture.listing, keys. cbn.
    repeat constructor; rewrite ?elem_of_cons, ?elem_of_nil;
      intuition discriminate.
  - unfold Fixture.listing, Fixture.relisting.
    etransitivity; [apply perm_skip, perm_swap | apply perm_swap].
Defined.

(** ** signData, signResult and verifyEnvelope *)

Lemma eip191_hash_hexlify `{E : Ethers} (h : bytes) :
  eip191_hash (Hex.hexlify h) =
    Normal (keccak256 (toUtf8Bytes eip191_prefix ++ h)).
Proof. unfold eip191_hash. now rewrite getBytes_hexlify. Qed.

Lemma serialize_signed `{E : Ethers} {L : EthersLaws E} (w : wallet)
    (h : bytes) :
  length h = 32%nat ->
  serialize_signature (signingKey_sign w h) =
    Normal (Hex.hexlify (signature_bytes (signingKey_sign w h))).
Proof.
  intros Hh. unfold serialize_signature.
  now rewrite (be_bytes_one _ (sign_v_range w h Hh)).
Qed.

Lemma signature_bytes_length `{E : Ethers} {L : EthersLaws E} (w : wallet)
    (h : bytes) :
  length h = 32%nat ->
  length (signature_bytes (signingKey_sign w h)) = 65%nat.
Proof.
  intros Hh. unfold signature_bytes. rewrite !length_app.
  rewrite (sign_r_length w h Hh), (sign_s_length w h Hh). reflexivity.
Qed.

(** X3.  [signData] returns the 65 bytes r, s, v of a signature over
    keccak256(prefix ++ keccak256(data)), from which the address of the
    wallet is recovered; [signResult] is [signData] on the UTF-8 bytes of
    the JSON text of the result, and throws when the result has no JSON
    text ([undefined]). *)
Theorem signData_recovers `{E : Ethers} {L : EthersLaws E} (w : wallet) :
  (forall dataBytes : bytes,
     exists sg : bytes,
       signData dataBytes w = Normal (Hex.hexlify sg) /\
       length sg = 65%nat /\
       recoverAddress
         (keccak256 (toUtf8Bytes eip191_prefix ++ keccak256 dataBytes)) sg
         = wallet_address w) /\
  (forall (result : value) (text : string),
     stringify result = Some text ->
     signResult result w = signData (toUtf8Bytes text) w) /\
  (forall result : value,
     stringify result = None -> exists e, signResult result w = Throw e).
Proof.
  split; [|split].
  - intros dataBytes.
    set (mh := keccak256 (toUtf8Bytes eip191_prefix ++ keccak256 dataBytes)).
    assert (Hmh : length mh = 32%nat) by apply keccak256_length.
    exists (signature_bytes (signingKey_sign w mh)). split; [|split].
    + unfold signData. rewrite eip191_hash_hexlify. cbn [bind].
      now apply serialize_signed.
    + now apply signature_bytes_length.
    + now apply recover_signed.
  - intros result text Ht. unfold signResult. now rewrite Ht.
  - intros result Hn. unfold signResult. rewrite Hn. cbn. eauto.
Qed.

Lemma signData_recovers_witness :
  (forall dataBytes : bytes,
     exists sg : bytes,
       @signData Sample.ethers dataBytes tt = Normal (Hex.hexlify sg) /\
       length sg = 65%nat /\
       @recoverAddress Sample.ethers
         (@keccak256 Sample.ethers
            (toUtf8Bytes eip191_prefix ++ @keccak256 Sample.ethers dataBytes))
         sg = @wallet_address Sample.ethers tt) /\
  (forall (result : value) (text : string),
     stringify result = Some text ->
     @signResult Sample.ethers result tt =
       @signData Sample.ethers (toUtf8Bytes text) tt) /\
  (forall result : value,
     stringify result = None ->
     exists e, @signResult Sample.ethers result tt = Throw e).
Proof. exact (@signData_recovers Sample.ethers sample_laws tt). Defined.

Lemma computeDigest_content `{E : Ethers} (e : Envelope.t) (d s : value) :
  computeDigest (set_signature s (set_digest d e)) = computeDigest e.
Proof. reflexivity. Qed.

Lemma created_verifies `{E : Ethers} {L : EthersLaws E} {V : Verifier E}
    {VL : VerifierLaws E V} (p : Envelope.args) (w : wallet)
    (e : Envelope.t) :
  createEnvelope p w = Normal e ->
  verifyEnvelope e (VStr (wallet_address w)) = Normal true.
Proof.
  intros Hbuild.
  set (content := envelope_content p).
  set (h := keccak256 (toUtf8Bytes (digest_preimage content))).
  set (mh := keccak256 (toUtf8Bytes eip191_prefix ++ h)).
  assert (Hmh : length mh = 32%nat) by apply keccak256_length.
  set (sg := signingKey_sign w mh).
  assert (He : e = set_signature (VStr (Hex.hexlify (signature_bytes sg)))
                     (set_digest (VStr (Hex.hexlify h)) content)).
  { unfold createEnvelope in Hbuild. fold content in Hbuild.
    change (computeDigest content) with (Hex.hexlify h) in Hbuild.
    rewrite eip191_hash_hexlify in Hbuild. cbn [bind] in Hbuild.
    fold mh in Hbuild. rewrite (serialize_signed w mh Hmh) in Hbuild.
    cbn [bind] in Hbuild. now inversion Hbuild. }
  subst e.
  unfold verifyEnvelope. rewrite computeDigest_content.
  change (computeDigest content) with (Hex.hexlify h).
  cbn [Envelope.digest Envelope.signature set_signature set_digest].
  rewrite String.eqb_refl. cbn [negb].
  rewrite eip191_hash_hexlify. cbn [bind]. fold mh.
  unfold recovered_matches.
  rewrite from_serialized.
  - cbn [bind]. unfold sg. rewrite (recover_own w mh Hmh). cbn [bind lower].
    now rewrite String.eqb_refl.
  - now apply sign_r_length.
  - now apply sign_s_length.
  - now apply sign_v_range.
  - now apply sign_low_s.
Qed.

(** X4.  An envelope built by [createEnvelope] is accepted by
    [verifyEnvelope] for the address of the wallet that signed it. *)
Theorem verifyEnvelope_created `{E : Ethers} {L : EthersLaws E}
    {V : Verifier E} {VL : VerifierLaws E V} (p : Envelope.args)
    (w : wallet) :
  exists e : Envelope.t,
    createEnvelope p w = Normal e /\
    verifyEnvelope e (VStr (wallet_address w)) = Normal true.
Proof.
  assert (Hbuilt : exists e, createEnvelope p w = Normal e).
  { unfold createEnvelope, computeDigest.
    rewrite eip191_hash_hexlify. cbn [bind].
    rewrite serialize_signed by apply keccak256_length.
    eexists. reflexivity. }
  destruct Hbuilt as (e & He). exists e. split; [exact He|].
  now apply (created_verifies p).
Qed.

Lemma fixture_laws : VerifierLaws Sample.ethers Fixture.verifier.
Proof.
  split.
  - intros [r s v] Hr Hs Hv Hlow. cbn in Hr, Hs, Hv |- *.
    rewrite getBytes_hexlify. unfold signature_bytes. cbn [sig_r sig_s sig_v].
    rewrite !length_app, Hr, Hs. cbn [length Nat.add Nat.eqb].
    f_equal. f_equal.
    + now rewrite take_app_length' by (symmetry; exact Hr).
    + rewrite drop_app_length' by (symmetry; exact Hr).
      now rewrite take_app_length' by (symmetry; exact Hs).
    + rewrite app_assoc. rewrite app_nth2; rewrite length_app, Hr, Hs; [|lia].
      destruct Hv as [-> | ->]; reflexivity.
  - reflexivity.
Qed.

Lemma verifyEnvelope_created_witness :
  exists e : Envelope.t,
    @createEnvelope Sample.ethers Sample.builder_args tt = Normal e /\
    @verifyEnvelope Sample.ethers Fixture.verifier e
      (VStr (@wallet_address Sample.ethers tt)) = Normal true.
Proof.
  exact (@verifyEnvelope_created Sample.ethers sample_laws Fixture.verifier
           fixture_laws Sample.builder_args tt).
Defined.

(** X5.  [verifyEnvelope] never throws, and it accepts an envelope only
    if the digest field is the digest of the content and the address
    recovered from the signature over the prefixed digest is the expected
    signer up to the case of the letters; in particular an envelope whose
    digest field is anything else is rejected whatever its signature. *)
Theorem verifyEnvelope_sound `{E : Ethers} {V : Verifier E}
    (e : Envelope.t) (expectedSigner : value) :
  exists b : bool,
    verifyEnvelope e expectedSigner = Normal b /\
    (b = true ->
     Envelope.digest e = VStr (computeDigest e) /\
     exists (sg : Signature) (recovered expected : string),
       Signature_from (Envelope.signature e) = Normal sg /\
       recoverSigner
         (keccak256 (toUtf8Bytes eip191_prefix ++
                     keccak256 (toUtf8Bytes (digest_preimage e)))) sg
         = Normal recovered /\
       expectedSigner = VStr expected /\
       toLowerCase recovered = toLowerCase expected) /\
    (Envelope.digest e <> VStr (computeDigest e) -> b = false).
Proof.
  unfold verifyEnvelope.
  destruct (Envelope.digest e) as [| | | |d| |] eqn:Hd;
    try (exists false; split; [reflexivity | split; [discriminate | reflexivity]]).
  destruct (String.eqb (computeDigest e) d) eqn:Heq; cbn [negb].
  2:{ exists false. split; [reflexivity | split; [discriminate | reflexivity]]. }
  apply String.eqb_eq in Heq. subst d.
  unfold computeDigest at 1. rewrite eip191_hash_hexlify. cbn [bind].
  unfold recovered_matches.
  destruct (Signature_from (Envelope.signature e)) as [sg|] eqn:Hsg; cbn [bind].
  2:{ exists false. split; [reflexivity | split; [discriminate | reflexivity]]. }
  destruct (recoverSigner _ sg) as [addr|] eqn:Hrec; cbn [bind].
  2:{ exists false. split; [reflexivity | split; [discriminate | reflexivity]]. }
  destruct expectedSigner as [| | | |s| |]; cbn [lower bind];
    try (exists false; split; [reflexivity | split; [discriminate | reflexivity]]).
  exists (String.eqb (toLowerCase addr) (toLowerCase s)).
  split; [reflexivity|]. split.
  - intros Hb. apply String.eqb_eq in Hb. split; [reflexivity|].
    exists sg, addr, s. repeat split; assumption.
  - intros Hne. now contradiction Hne.
Qed.

(** ** The rate limiter *)

Lemma evict_evict (c c' : Z) (l : list Z) :
  c <= c' ->
  RateLimiter.evict c' (RateLimiter.evict c l) = RateLimiter.evict c' l.
Proof.
  intros Hc. induction l as [|t r IH]; cbn; [reflexivity|].
  destruct (t <? c) eqn:E.
  - assert ((t <? c') = true) as -> by lia. exact IH.
  - reflexivity.
Qed.

Lemma evict_length (c : Z) (l : list Z) :
  (length (RateLimiter.evict c l) <= length l)%nat.
Proof.
  induction l as [|t r IH]; cbn; [lia|].
  destruct (t <? c); cbn; lia.
Qed.

Lemma evict_head (c t : Z) (l r : list Z) :
  RateLimiter.evict c l = t :: r -> c <= t.
Proof.
  induction l as [|t0 r0 IH]; cbn; [discriminate|].
  destruct (t0 <? c) eqn:E; [exact IH|].
  intros Heq. inversion Heq; subst. lia.
Qed.

Lemma evict_snoc (c t : Z) (l : list Z) :
  c <= t -> (1 <= length (RateLimiter.evict c (l ++ [t])))%nat.
Proof.
  intros Hc. induction l as [|t0 r IH]; cbn.
  - assert ((t <? c) = false) as -> by lia. cbn. lia.
  - destruct (t0 <? c); [exact IH|]. cbn. lia.
Qed.

Lemma requests_of_cleanup (l : RateLimiter.t) (key : option string)
    (now : Z) :
  RateLimiter.requests_of (RateLimiter.cleanup l now) key =
    RateLimiter.evict (now - RateLimiter.windowMs l)
      (RateLimiter.requests_of l key).
Proof.
  unfold RateLimiter.requests_of, RateLimiter.cleanup.
  cbn [RateLimiter.store]. rewrite lookup_omap.
  destruct (RateLimiter.store l !! key) as [r|]; cbn; [|reflexivity].
  now destruct (RateLimiter.evict _ r).
Qed.

Lemma requests_of_check (l : RateLimiter.t) (key key' : option string)
    (now : Z) :
  RateLimiter.requests_of (snd (RateLimiter.check l key now)) key' =
    if bool_decide (key = key') then
      let requests :=
        RateLimiter.evict (now - RateLimiter.windowMs l)
          (RateLimiter.requests_of l key) in
      if fst (RateLimiter.check l key now) then requests ++ [now]
      else requests
    else RateLimiter.requests_of l key'.
Proof.
  unfold RateLimiter.check.
  destruct (RateLimiter.maxRequests l <=? _); cbn [fst snd];
    unfold RateLimiter.requests_of at 1; cbn [RateLimiter.store];
    case_bool_decide as Hk; subst;
    rewrite ?lookup_insert_eq, ?lookup_insert_ne by assumption; reflexivity.
Qed.

Lemma requests_of_remaining (l : RateLimiter.t) (key key' : option string)
    (now : Z) :
  RateLimiter.requests_of (snd (RateLimiter.remaining l key now)) key' =
    if bool_decide (key = key') then
      RateLimiter.evict (now - RateLimiter.windowMs l)
        (RateLimiter.requests_of l key)
    else RateLimiter.requests_of l key'.
Proof.
  unfold RateLimiter.remaining, RateLimiter.requests_of.
  destruct (RateLimiter.store l !! key) as [r|] eqn:Hr; cbn [snd];
    cbn [RateLimiter.store]; case_bool_decide as Hk; subst;
    rewrite ?lookup_insert_eq, ?lookup_insert_ne, ?Hr by assumption;
    reflexivity.
Qed.

Lemma requests_of_reset (l : RateLimiter.t) (key key' : option string) :
  RateLimiter.requests_of (RateLimiter.reset l key) key' =
    if bool_decide (key = key') then []
    else RateLimiter.requests_of l key'.
Proof.
  unfold RateLimiter.reset, RateLimiter.requests_of. cbn [RateLimiter.store].
  case_bool_decide as Hk; subst;
    rewrite ?lookup_delete_eq, ?lookup_delete_ne by assumption; reflexivity.
Qed.

Lemma check_answer (l : RateLimiter.t) (key : option string) (now : Z) :
  fst (RateLimiter.check l key now) =
    negb (RateLimiter.maxRequests l <=?
          Z.of_nat (length (RateLimiter.evict (now - RateLimiter.windowMs l)
                              (RateLimiter.requests_of l key)))).
Proof.
  unfold RateLimiter.check. now destruct (RateLimiter.maxRequests l <=? _).
Qed.

Lemma after_parameters (l : RateLimiter.t) (op : limiter_op) :
  RateLimiter.windowMs (after l op) = RateLimiter.windowMs l /\
  RateLimiter.maxRequests (after l op) = RateLimiter.maxRequests l.
Proof.
  destruct op as [[key now|key now|now]|key]; cbn.
  - unfold RateLimiter.check. now destruct (_ <=? _).
  - unfold RateLimiter.remaining. now destruct (_ !! _).
  - split; reflexivity.
  - split; reflexivity.
Qed.

(** X6.  [remaining(key)] is positive exactly when [check(key)] at the
    same time would admit the request. *)
Theorem remaining_positive_iff_admitted (l : RateLimiter.t)
    (key : option string) (now : Z) :
  0 < fst (RateLimiter.remaining l key now) <->
  fst (RateLimiter.check l key now) = true.
Proof.
  rewrite check_answer. unfold RateLimiter.remaining, RateLimiter.requests_of.
  destruct (RateLimiter.store l !! key) as [r|]; cbn [fst].
  - destruct (RateLimiter.maxRequests l <=? _) eqn:E; cbn [negb].
    + apply Z.leb_le in E. split; [lia | discriminate].
    + apply Z.leb_gt in E. split; [reflexivity | lia].
  - change (RateLimiter.evict (now - RateLimiter.windowMs l) []) with (@nil Z).
    change (Z.of_nat (length (@nil Z))) with 0.
    destruct (RateLimiter.maxRequests l <=? 0) eqn:E; cbn [negb].
    + apply Z.leb_le in E. split; [lia | discriminate].
    + apply Z.leb_gt in E. split; [reflexivity | lia].
Qed.

(** X7.  The periodic [cleanup] is not observable by later calls: when
    the clock does not go backwards, [check] gives the same answer and
    stores the same list for the key, and [remaining] gives the same
    number (for a limit that is not negative), whether or not a cleanup
    ran before. *)
Theorem cleanup_unobservable (l : RateLimiter.t) (key : option string)
    (now now' : Z) :
  now <= now' ->
  fst (RateLimiter.check (RateLimiter.cleanup l now) key now') =
    fst (RateLimiter.check l key now') /\
  RateLimiter.requests_of
    (snd (RateLimiter.check (RateLimiter.cleanup l now) key now')) key =
    RateLimiter.requests_of (snd (RateLimiter.check l key now')) key /\
  (0 <= RateLimiter.maxRequests l ->
   fst (RateLimiter.remaining (RateLimiter.cleanup l now) key now') =
     fst (RateLimiter.remaining l key now')).
Proof.
  intros Hnow.
  assert (Hev : forall r,
             RateLimiter.evict (now' - RateLimiter.windowMs l)
               (RateLimiter.evict (now - RateLimiter.windowMs l) r) =
             RateLimiter.evict (now' - RateLimiter.windowMs l) r)
    by (intros r; apply evict_evict; lia).
  assert (Hfst : fst (RateLimiter.check (RateLimiter.cleanup l now) key now') =
                 fst (RateLimiter.check l key now')).
  { rewrite !check_answer, requests_of_cleanup.
    cbn [RateLimiter.cleanup RateLimiter.windowMs RateLimiter.maxRequests].
    now rewrite Hev. }
  split; [exact Hfst|]. split.
  - rewrite !requests_of_check, Hfst, requests_of_cleanup.
    cbn [RateLimiter.cleanup RateLimiter.windowMs]. rewrite Hev.
    now rewrite bool_decide_eq_true_2.
  - intros Hmax. unfold RateLimiter.remaining, RateLimiter.cleanup.
    cbn [RateLimiter.store RateLimiter.windowMs RateLimiter.maxRequests].
    rewrite lookup_omap.
    destruct (RateLimiter.store l !! key) as [r|]; cbn; [|reflexivity].
    destruct (RateLimiter.evict (now - RateLimiter.windowMs l) r)
      as [|t0 r0] eqn:E; cbn [fst].
    + rewrite <- (Hev r), E. cbn. lia.
    + now rewrite <- (Hev r), E.
Qed.

Lemma cleanup_unobservable_witness :
  fst (RateLimiter.check (RateLimiter.cleanup Fixture.limiter 61500)
         (Some "203.0.113.7") 62000) =
    fst (RateLimiter.check Fixture.limiter (Some "203.0.113.7") 62000) /\
  RateLimiter.requests_of
    (snd (RateLimiter.check (RateLimiter.cleanup Fixture.limiter 61500)
            (Some "203.0.113.7") 62000)) (Some "203.0.113.7") =
    RateLimiter.requests_of
      (snd (RateLimiter.check Fixture.limiter (Some "203.0.113.7") 62000))
      (Some "203.0.113.7") /\
  (0 <= RateLimiter.maxRequests Fixture.limiter ->
   fst (RateLimiter.remaining (RateLimiter.cleanup Fixture.limiter 61500)
          (Some "203.0.113.7") 62000) =
     fst (RateLimiter.remaining Fixture.limiter (Some "203.0.113.7") 62000)).
Proof.
  apply (cleanup_unobservable Fixture.limiter (Some "203.0.113.7") 61500 62000).
  lia.
Defined.

(** X8.  Whatever calls are made on a limiter, in any order and at any
    times, it never stores more than [maxRequests] times for a key. *)
Theorem store_bounded (w n : Z) (ops : list limiter_op)
    (key : option string) :
  Z.of_nat (length (RateLimiter.requests_of
                      (run_limiter (RateLimiter.mk w n ∅) ops) key))
    <= Z.max 0 n.
Proof.
  unfold run_limiter.
  assert (Hgen : forall l,
             RateLimiter.maxRequests l = n ->
             (forall k, Z.of_nat (length (RateLimiter.requests_of l k))
                        <= Z.max 0 n) ->
             forall k, Z.of_nat (length (RateLimiter.requests_of
                                           (fold_left after ops l) k))
                       <= Z.max 0 n).
  { induction ops as [|op ops IH]; intros l Hn Hl k; cbn; [apply Hl|].
    apply IH.
    - now rewrite (proj2 (after_parameters l op)).
    - clear k. intros k.
      destruct op as [[key0 now|key0 now|now]|key0]; cbn [after].
      + rewrite requests_of_check. case_bool_decide; [|apply Hl].
        rewrite check_answer.
        pose proof (evict_length (now - RateLimiter.windowMs l)
                      (RateLimiter.requests_of l key0)) as He.
        specialize (Hl key0). rewrite Hn.
        destruct (n <=? _) eqn:E; cbn [negb];
          rewrite ?length_app; cbn [length]; lia.
      + rewrite requests_of_remaining. case_bool_decide; [|apply Hl].
        pose proof (evict_length (now - RateLimiter.windowMs l)
                      (RateLimiter.requests_of l key0)) as He.
        specialize (Hl key0). lia.
      + rewrite requests_of_cleanup.
        pose proof (evict_length (now - RateLimiter.windowMs l)
                      (RateLimiter.requests_of l k)) as He.
        specialize (Hl k). lia.
      + rewrite requests_of_reset. case_bool_decide; [cbn; lia | apply Hl]. }
  apply Hgen; [reflexivity|]. intros k.
  unfold RateLimiter.requests_of. cbn. rewrite lookup_empty. cbn. lia.
Qed.

(** X9.  After [cleanup] at the time [now] every list that is still
    stored is non-empty and starts with a time inside the window. *)
Theorem cleanup_keeps_recent (l : RateLimiter.t) (now : Z)
    (key : option string) (requests : list Z) :
  RateLimiter.store (RateLimiter.cleanup l now) !! key = Some requests ->
  exists t rest,
    requests = t :: rest /\ now - RateLimiter.windowMs l <= t.
Proof.
  unfold RateLimiter.cleanup. cbn [RateLimiter.store]. rewrite lookup_omap.
  destruct (RateLimiter.store l !! key) as [r|]; cbn; [|discriminate].
  destruct (RateLimiter.evict _ r) as [|t rest] eqn:E; [discriminate|].
  intros Heq. inversion Heq; subst. exists t, rest. split; [reflexivity|].
  now apply (evict_head _ _ _ _ E).
Qed.

Lemma cleanup_keeps_recent_witness :
  exists t rest,
    [61000] = t :: rest /\ 61500 - RateLimiter.windowMs Fixture.limiter <= t.
Proof.
  apply (cleanup_keeps_recent Fixture.limiter 61500 (Some "203.0.113.7")).
  vm_compute. reflexivity.
Defined.

(** X10.  The keys of a limiter are independent: a [check], a
    [remaining] or a [reset] for one key changes neither the stored
    requests of another key nor the answer it gets.  A [reset] gives its
    key the full quota again. *)
Theorem keys_independent (l : RateLimiter.t) (key other : option string)
    (now now' : Z) :
  key <> other ->
  (forall op,
     In op [Call (Check key now); Call (Remaining key now); Reset key] ->
     RateLimiter.requests_of (after l op) other =
       RateLimiter.requests_of l other /\
     fst (RateLimiter.check (after l op) other now') =
       fst (RateLimiter.check l other now')) /\
  RateLimiter.requests_of (RateLimiter.reset l key) key = [] /\
  fst (RateLimiter.remaining (RateLimiter.reset l key) key now') =
    RateLimiter.maxRequests l.
Proof.
  intros Hne. split; [|split].
  - intros op Hop.
    assert (Hreq : RateLimiter.requests_of (after l op) other =
                   RateLimiter.requests_of l other).
    { cbn in Hop. destruct Hop as [<-|[<-|[<-|[]]]]; cbn [after].
      - rewrite requests_of_check. now case_bool_decide.
      - rewrite requests_of_remaining. now case_bool_decide.
      - rewrite requests_of_reset. now case_bool_decide. }
    split; [exact Hreq|].
    rewrite !check_answer, Hreq.
    destruct (after_parameters l op) as [-> ->]. reflexivity.
  - rewrite requests_of_reset. now case_bool_decide.
  - unfold RateLimiter.remaining, RateLimiter.reset. cbn [RateLimiter.store].
    now rewrite lookup_delete_eq.
Qed.

Lemma keys_independent_witness :
  (forall op,
     In op [Call (Check (Some "203.0.113.7") 62000);
            Call (Remaining (Some "203.0.113.7") 62000);
            Reset (Some "203.0.113.7")] ->
     RateLimiter.requests_of (after Fixture.limiter op) (Some "198.51.100.2") =
       RateLimiter.requests_of Fixture.limiter (Some "198.51.100.2") /\
     fst (RateLimiter.check (after Fixture.limiter op) (Some "198.51.100.2")
            62001) =
       fst (RateLimiter.check Fixture.limiter (Some "198.51.100.2") 62001)) /\
  RateLimiter.requests_of
    (RateLimiter.reset Fixture.limiter (Some "203.0.113.7"))
    (Some "203.0.113.7") = [] /\
  fst (RateLimiter.remaining
         (RateLimiter.reset Fixture.limiter (Some "203.0.113.7"))
         (Some "203.0.113.7") 62001) =
    RateLimiter.maxRequests Fixture.limiter.
Proof.
  apply (keys_independent Fixture.limiter (Some "203.0.113.7")
           (Some "198.51.100.2") 62000 62001).
  discriminate.
Defined.

(** X11.  A request that the middleware admits gets the three rate limit
    headers: the limit of the limiter that was selected, and a remaining
    count that already counts the request itself, so that it is below
    the limit (and not negative), provided the window has not gone by
    between the two readings of the clock. *)
Theorem rate_limit_headers `{H : Host} (req : request) (clk : clock)
    (s : server) :
  admits s req clk = true ->
  t_remaining clk - RateLimiter.windowMs (limiter_of s req) <= t_check clk ->
  exists rest s',
    rateLimitMiddleware req clk s =
      (Normal (Next
         [ ("X-RateLimit-Limit",
            VNum (RateLimiter.maxRequests (limiter_of s req)));
           ("X-RateLimit-Remaining", VNum rest);
           ("X-RateLimit-Reset",
            VStr (toISOString
                    (t_reset clk
                     + RateLimiter.windowMs (limiter_of s req)))) ]),
       s') /\
    0 <= rest < RateLimiter.maxRequests (limiter_of s req).
Proof.
  unfold admits, rateLimitMiddleware. intros Hadm Hclk.
  set (l := limiter_of s req) in *. set (key := identifier req) in *.
  pose proof (check_answer l key (t_check clk)) as Hans.
  pose proof (requests_of_check l key key (t_check clk)) as Hreq.
  rewrite Hadm in Hans, Hreq. rewrite bool_decide_eq_true_2 in Hreq by reflexivity.
  cbn zeta in Hreq.
  pose proof (after_parameters l (Call (Check key (t_check clk)))) as [Hw Hn].
  cbn [after] in Hw, Hn.
  destruct (RateLimiter.check l key (t_check clk)) as [ok l'] eqn:Hc.
  cbn [fst snd] in *. subst ok.
  unfold RateLimiter.remaining.
  unfold RateLimiter.requests_of in Hreq at 1.
  destruct (RateLimiter.store l' !! key) as [r|] eqn:Hr.
  - eexists _, _. split.
    + cbn [RateLimiter.maxRequests RateLimiter.windowMs].
      rewrite Hw, Hn. reflexivity.
    + subst r.
      pose proof (evict_snoc (t_remaining clk - RateLimiter.windowMs l)
                    (t_check clk)
                    (RateLimiter.evict (t_check clk - RateLimiter.windowMs l)
                       (RateLimiter.requests_of l key)) Hclk) as Hlen.
      symmetry in Hans. apply negb_true_iff, Z.leb_gt in Hans. lia.
  - exfalso. symmetry in Hreq. now apply app_eq_nil in Hreq as [_ ?].
Qed.

Lemma rate_limit_headers_witness :
  exists rest s',
    @rateLimitMiddleware Sample.host Sample.price_lookup Sample.now initial =
      (Normal (Next
         [ ("X-RateLimit-Limit",
            VNum (RateLimiter.maxRequests
                    (limiter_of initial Sample.price_lookup)));
           ("X-RateLimit-Remaining", VNum rest);
           ("X-RateLimit-Reset",
            VStr (@toISOString Sample.host
                    (t_reset Sample.now
                     + RateLimiter.windowMs
                         (limiter_of initial Sample.price_lookup)))) ]),
       s') /\
    0 <= rest < RateLimiter.maxRequests
                  (limiter_of initial Sample.price_lookup).
Proof.
  apply (@rate_limit_headers Sample.host Sample.price_lookup Sample.now
           initial).
  - vm_compute. reflexivity.
  - vm_compute. discriminate.
Defined.

(** ** Validation *)

Lemma ens_regex_split (s : string) :
  ens_regex s = true <->
  exists label tld,
    s = label +:+ tld /\ label <> "" /\
    forallb is_label_char (list_ascii_of_string label) = true /\
    dot_eth tld = true.
Proof.
  split.
  - induction s as [|c r IH]; cbn [ens_regex]; [discriminate|].
    intros Hs. apply andb_true_iff in Hs as [Hc Hr].
    apply orb_true_iff in Hr as [Hr|Hr].
    + exists (String c ""), r. cbn. rewrite Hc. repeat split; congruence.
    + destruct (IH Hr) as (label & tld & -> & Hl & Hall & Htld).
      exists (String c label), tld. cbn. rewrite Hc, Hall.
      repeat split; congruence.
  - intros (label & tld & -> & Hl & Hall & Htld).
    induction label as [|c label IH]; [congruence|].
    cbn in Hall. apply andb_true_iff in Hall as [Hc Hall].
    change (String c label +:+ tld) with (String c (label +:+ tld)).
    cbn [ens_regex]. rewrite Hc. cbn [andb].
    destruct label as [|c' label'].
    + change ("" +:+ tld) with tld. now rewrite Htld.
    + rewrite IH; [apply orb_true_r | congruence | exact Hall].
Qed.

(** X12.  [isValidENSName] accepts exactly the strings of at most 255
    code units that are one label of letters, digits and hyphens followed
    by [.eth] in either case.  A dot is not a label character, so a name
    with a second label (such as sub.name.eth) is rejected. *)
Theorem valid_name_shape (name : value) :
  (isValidENSName name = true <->
   exists label tld,
     name = VStr (label +:+ tld) /\ label <> "" /\
     forallb is_label_char (list_ascii_of_string label) = true /\
     dot_eth tld = true /\
     utf16_length (label +:+ tld) <= 255) /\
  is_label_char "." = false.
Proof.
  split; [|reflexivity]. unfold isValidENSName. split.
  - destruct name as [| | | |s| |]; try discriminate.
    destruct (String.eqb s ""); [discriminate|].
    intros H. apply andb_true_iff in H as [Hre Hlen].
    apply ens_regex_split in Hre as (label & tld & -> & Hl & Hall & Htld).
    exists label, tld. repeat split; try assumption. lia.
  - intros (label & tld & -> & Hl & Hall & Htld & Hlen).
    destruct (String.eqb (label +:+ tld) "") eqn:E.
    + apply String.eqb_eq in E. destruct label; [congruence | discriminate].
    + apply andb_true_iff. split; [|lia].
      apply ens_regex_split. exists label, tld. repeat split; assumption.
Qed.

(** Bytes that are neither NUL nor beyond a byte. *)
Lemma codes_of_codes (l : list N) :
  Forall (fun n => (n < 256)%N) l -> codes (of_codes l) = l.
Proof.
  unfold codes, of_codes. rewrite list_ascii_of_string_of_list_ascii.
  induction 1 as [|n r Hn Hr IH]; cbn; [reflexivity|].
  now rewrite IH, N_ascii_embedding.
Qed.

Lemma codes_bounded (s : string) : Forall (fun n => (n < 256)%N) (codes s).
Proof.
  unfold codes. apply Forall_forall. intros n Hn.
  apply list_elem_of_In, in_map_iff in Hn as (c & <- & _).
  apply N_ascii_bounded.
Qed.

Lemma of_codes_codes (s : string) : of_codes (codes s) = s.
Proof.
  unfold codes, of_codes. rewrite map_map.
  rewrite (map_ext _ id) by (intros c; apply ascii_N_embedding).
  rewrite map_id. apply string_of_list_ascii_of_string.
Qed.

Lemma in_drop {A : Type} (x : A) (n : nat) (l : list A) :
  In x (drop n l) -> In x l.
Proof.
  revert l. induction n as [|n IH]; intros [|a l]; cbn; auto.
Qed.

Lemma in_take {A : Type} (x : A) (n : nat) (l : list A) :
  In x (take n l) -> In x l.
Proof.
  revert l. induction n as [|n IH]; intros [|a l]; cbn; try tauto.
  intros [->|H]; auto.
Qed.

Lemma in_strip (rev : bool) (x : N) (fuel : nat) :
  forall l, In x (strip rev fuel l) -> In x l.
Proof.
  induction fuel as [|f IH]; intros l; cbn [strip]; [auto|].
  destruct (white_space rev l); [auto|].
  intros H. apply IH in H. now apply in_drop in H.
Qed.

Lemma in_take_units (x : N) (fuel : nat) :
  forall n l, In x (take_units fuel n l) -> In x l.
Proof.
  induction fuel as [|f IH]; intros n l; cbn [take_units]; [intros []|].
  destruct l as [|a r]; [intros []|].
  destruct (units_of_byte a <=? n); [|intros []].
  intros H. apply in_app_iff in H as [H|H].
  - now apply in_take in H.
  - apply IH in H. now apply in_drop in H.
Qed.

Lemma in_trim (x : N) (s : string) : In x (codes (trim s)) -> In x (codes s).
Proof.
  unfold trim. intros H.
  assert (Hsub : forall y,
             In y (List.rev (strip true
                     (length (strip false (length (codes s)) (codes s)))
                     (List.rev (strip false (length (codes s)) (codes s)))))
             -> In y (codes s)).
  { intros y Hy. apply in_rev, in_strip, in_rev in Hy.
    now apply in_strip in Hy. }
  rewrite codes_of_codes in H; [now apply Hsub|].
  apply Forall_forall. intros y Hy. apply list_elem_of_In, Hsub in Hy.
  pose proof (codes_bounded s) as Hb. rewrite Forall_forall in Hb.
  now apply Hb, list_elem_of_In.
Qed.

Lemma in_substring0 (x : N) (s : string) (n : Z) :
  In x (codes (substring0 s n)) -> In x (codes s).
Proof.
  unfold substring0. intros H.
  rewrite codes_of_codes in H; [now apply in_take_units in H|].
  apply Forall_forall. intros y Hy.
  apply list_elem_of_In, in_take_units in Hy.
  pose proof (codes_bounded s) as Hb. rewrite Forall_forall in Hb.
  now apply Hb, list_elem_of_In.
Qed.

Lemma in_remove_nul (x : N) (s : string) :
  In x (codes (remove_nul s)) -> x <> 0%N.
Proof.
  unfold remove_nul. intros H.
  assert (Hb : Forall (fun n => (n < 256)%N)
                 (filter (fun n => n <> 0%N) (codes s))).
  { apply Forall_forall. intros y Hy. apply list_elem_of_filter in Hy as [_ Hy].
    pose proof (codes_bounded s) as Hb. rewrite Forall_forall in Hb.
    now apply Hb. }
  rewrite codes_of_codes in H by exact Hb.
  apply list_elem_of_In, list_elem_of_filter in H. tauto.
Qed.

(** X13.  [sanitizeString] never returns a string that holds the
    character U+0000, and it returns the empty string for every input
    that is not a string. *)
Theorem sanitizeString_clean (input : value) (maxLength : Z) :
  ~ In 0%N (codes (sanitizeString input maxLength)) /\
  (is_string input = false -> sanitizeString input maxLength = "").
Proof.
  split.
  - unfold sanitizeString. destruct input as [| | | |s| |]; cbn; try tauto.
    destruct (maxLength <? _); intros H.
    + apply in_substring0, in_trim, in_remove_nul in H. congruence.
    + apply in_trim, in_remove_nul in H. congruence.
  - now destruct input.
Qed.




(** Printable ASCII: the bytes from 33 to 127. *)
Lemma white_space_plain (rev : bool) (a : N) (l : list N) :
  (32 < a < 128)%N -> white_space rev (a :: l) = 0%nat.
Proof.
  intros [H1 H2]. destruct a as [|p]; [lia|].
  do 7 (try (destruct p as [p|p|]; try lia));
    destruct rev, l as [|b [|c r]]; cbn; rewrite ?andb_false_r; reflexivity.
Qed.

Lemma strip_plain (rev : bool) (fuel : nat) (l : list N) :
  Forall (fun n => (32 < n < 128)%N) l -> strip rev fuel l = l.
Proof.
  intros Hl. destruct fuel as [|f]; [reflexivity|]. cbn [strip].
  destruct Hl as [|a r Ha Hr]; [reflexivity|].
  now rewrite white_space_plain.
Qed.

Lemma label_plain (c : ascii) :
  is_label_char c = true -> (32 < N_of_ascii c < 128)%N.
Proof.
  unfold is_label_char. cbv zeta.
  rewrite !orb_true_iff, !andb_true_iff, !N.leb_le, !N.eqb_eq. lia.
Qed.

Lemma letter_plain (lower c : ascii) :
  is_letter lower c = true -> (64 < N_of_ascii lower < 128)%N ->
  (32 < N_of_ascii c < 128)%N.
Proof.
  unfold is_letter. cbv zeta. rewrite orb_true_iff, !N.eqb_eq. lia.
Qed.

Lemma ens_plain (s : string) :
  ens_regex s = true -> Forall (fun n => (32 < n < 128)%N) (codes s).
Proof.
  induction s as [|c r IH]; cbn [ens_regex]; [discriminate|].
  intros Hs. apply andb_true_iff in Hs as [Hc Hr].
  change (codes (String c r)) with (N_of_ascii c :: codes r).
  constructor; [now apply label_plain|].
  apply orb_true_iff in Hr as [Hr|Hr]; [|now apply IH].
  destruct r as [|d [|e [|t [|h [|x y]]]]]; try discriminate.
  cbn in Hr. repeat (apply andb_true_iff in Hr as [Hr ?]).
  apply Ascii.eqb_eq in Hr. subst d.
  change (codes (String "." (String e (String t (String h "")))))
    with [46%N; N_of_ascii e; N_of_ascii t; N_of_ascii h].
  repeat constructor; try lia;
    eapply letter_plain; try eassumption; cbn; lia.
Qed.

Lemma remove_nul_plain (s : string) :
  Forall (fun n => (32 < n < 128)%N) (codes s) -> remove_nul s = s.
Proof.
  intros Hs. unfold remove_nul.
  rewrite <- (of_codes_codes s) at 2. f_equal.
  induction Hs as [|a r Ha Hr IH]; [reflexivity|].
  rewrite filter_cons_True by lia. now rewrite IH.
Qed.

Lemma trim_plain (s : string) :
  Forall (fun n => (32 < n < 128)%N) (codes s) -> trim s = s.
Proof.
  intros Hs. unfold trim. rewrite (strip_plain false) by exact Hs.
  rewrite (strip_plain true).
  - rewrite rev_involutive. apply of_codes_codes.
  - apply Forall_forall. intros x Hx.
    apply list_elem_of_In, in_rev, list_elem_of_In in Hx.
    rewrite Forall_forall in Hs. now apply Hs.
Qed.

(** X15.  Sanitising a valid ENS name changes nothing: such a name
    holds no NUL, no white space at its ends and at most 255 code units,
    so [validateRequest] stores a valid name back as it was given. *)
Theorem valid_name_unchanged (name : value) :
  isValidENSName name = true -> VStr (sanitizeString name 255) = name.
Proof.
  unfold isValidENSName, sanitizeString.
  destruct name as [| | | |s| |]; try discriminate.
  destruct (String.eqb s ""); [discriminate|].
  intros H. apply andb_true_iff in H as [Hre Hlen].
  apply ens_plain in Hre.
  rewrite (remove_nul_plain s Hre), (trim_plain s Hre).
  assert ((255 <? utf16_length s) = false) as -> by lia. reflexivity.
Qed.

Lemma valid_name_unchanged_witness :
  VStr (sanitizeString (VStr "vitalik.eth") 255) = VStr "vitalik.eth".
Proof.
  apply (valid_name_unchanged (VStr "vitalik.eth")). vm_compute. reflexivity.
Defined.

(** ** Metrics *)

Lemma recorded_snoc (calls : list metrics_call) (c : metrics_call) :
  recorded (calls ++ [c]) = record (recorded calls) c.
Proof. unfold recorded. now rewrite fold_left_app. Qed.

Lemma count_snoc {A : Type} (p : A -> bool) (l : list A) (x : A) :
  count p (l ++ [x]) = count p l + (if p x then 1 else 0).
Proof.
  unfold count. rewrite List.filter_app, length_app. cbn [List.filter].
  destruct (p x); cbn [length]; lia.
Qed.

Lemma count_nonneg {A : Type} (p : A -> bool) (l : list A) : 0 <= count p l.
Proof. unfold count. lia. Qed.

Lemma count_le_length {A : Type} (p : A -> bool) (l : list A) :
  count p l <= Z.of_nat (length l).
Proof.
  unfold count. induction l as [|x r IH]; cbn [List.filter length]; [lia|].
  destruct (p x); cbn [length]; lia.
Qed.

Lemma count_monotone {A : Type} (p q : A -> bool) (l : list A) :
  (forall x, p x = true -> q x = true) -> count p l <= count q l.
Proof.
  intros Hpq. unfold count.
  induction l as [|x r IH]; cbn [List.filter length]; [lia|].
  destruct (p x) eqn:Hp.
  - rewrite (Hpq x Hp). cbn [length]. lia.
  - destruct (q x); cbn [length]; lia.
Qed.

Lemma sum_snoc (l : list Z) (x : Z) :
  fold_right Z.add 0 (l ++ [x]) = fold_right Z.add 0 l + x.
Proof. induction l as [|y r IH]; cbn; lia. Qed.

Lemma requests_snoc (calls : list metrics_call) (c : metrics_call) :
  requests (calls ++ [c]) =
    requests calls ++
    match c with Request _ ok _ => [ok] | _ => [] end.
Proof.
  unfold requests. rewrite flat_map_app. cbn. now rewrite app_nil_r.
Qed.

Lemma latencies_snoc (calls : list metrics_call) (c : metrics_call) :
  latencies (calls ++ [c]) =
    latencies calls ++
    match c with Request _ _ (Some l) => [l] | _ => [] end.
Proof.
  unfold latencies. rewrite flat_map_app. cbn. now rewrite app_nil_r.
Qed.

Lemma recorded_le_inf (calls : list metrics_call) :
  Metrics.le_inf (recorded calls) = Z.of_nat (length (latencies calls)).
Proof.
  induction calls as [|c calls IH] using rev_ind; [reflexivity|].
  rewrite recorded_snoc, latencies_snoc.
  destruct c as [method ok [l|]| | | |ok];
    cbn [record recordRequest_opt Metrics.recordRequest recordCacheHit
         recordCacheMiss Metrics.recordSignatureGenerated
         recordSignatureVerified Metrics.le_inf];
    rewrite ?app_nil_r, ?length_app; cbn [length]; lia.
Qed.

(** X16.  After any sequence of recording calls on a new [Metrics]
    object the request counters are consistent: [total] is the number of
    recorded requests and equals [success + errors], which count the
    requests recorded as successful and as failed; the latency [count]
    and the [le_inf] bucket are both the number of requests recorded
    with a latency, at most [total]; and [sum] is the sum of those
    latencies. *)
Theorem request_counters (calls : list metrics_call) :
  let m := recorded calls in
  Metrics.total m = Z.of_nat (length (requests calls)) /\
  Metrics.success m = count (fun ok => ok) (requests calls) /\
  Metrics.errors m = count negb (requests calls) /\
  Metrics.total m = Metrics.success m + Metrics.errors m /\
  Metrics.latency_count m = Z.of_nat (length (latencies calls)) /\
  Metrics.le_inf m = Metrics.latency_count m /\
  Metrics.latency_count m <= Metrics.total m /\
  Metrics.latency_sum m = fold_right Z.add 0 (latencies calls).
Proof.
  cbv zeta. induction calls as [|c calls IH] using rev_ind.
  - cbn. repeat split; lia.
  - rewrite recorded_snoc, requests_snoc, latencies_snoc.
    destruct IH as (Ht & Hs & He & Hse & Hc & Hi & Hle & Hsum).
    destruct c as [method ok [l|]| | | |ok];
      cbn [record recordRequest_opt Metrics.recordRequest recordCacheHit
           recordCacheMiss Metrics.recordSignatureGenerated
           recordSignatureVerified Metrics.total Metrics.success
           Metrics.errors Metrics.latency_count Metrics.le_inf
           Metrics.latency_sum];
      rewrite ?app_nil_r, ?count_snoc, ?sum_snoc, ?length_app;
      cbn [length negb]; try (destruct ok; cbn [negb]);
      repeat split; lia.
Qed.

(** X17.  The latency histogram is cumulative: after any sequence of
    recording calls each bucket [le_b] holds the number of recorded
    latencies that are at most [b], so the counters do not decrease from
    a bucket to a larger one and none exceeds [le_inf]. *)
Theorem histogram_cumulative (calls : list metrics_call) :
  let m := recorded calls in
  Metrics.distribution m =
    map (fun b => (b, count (fun l => l <=? b) (latencies calls)))
      Metrics.buckets /\
  (forall b c b' c',
     In (b, c) (Metrics.distribution m) ->
     In (b', c') (Metrics.distribution m) ->
     b <= b' -> c <= c') /\
  (forall b c,
     In (b, c) (Metrics.distribution m) -> 0 <= c <= Metrics.le_inf m).
Proof.
  cbv zeta.
  assert (Hd : Metrics.distribution (recorded calls) =
               map (fun b => (b, count (fun l => l <=? b) (latencies calls)))
                 Metrics.buckets).
  { induction calls as [|c calls IH] using rev_ind; [reflexivity|].
    rewrite recorded_snoc, latencies_snoc.
    destruct c as [method ok [l|]| | | |ok];
      cbn [record recordRequest_opt Metrics.recordRequest recordCacheHit
           recordCacheMiss Metrics.recordSignatureGenerated
           recordSignatureVerified Metrics.distribution];
      rewrite ?app_nil_r; try exact IH.
    rewrite IH, map_map. apply map_ext. intros b.
    rewrite count_snoc. cbv beta iota. destruct (l <=? b); f_equal; lia. }
  split; [exact Hd|]. rewrite Hd. split.
  - intros b c b' c' Hin Hin'.
    apply in_map_iff in Hin as (b0 & Heq & _).
    apply in_map_iff in Hin' as (b1 & Heq' & _).
    inversion Heq; inversion Heq'; subst. intros Hb.
    apply count_monotone. intros x Hx. lia.
  - intros b c Hin. apply in_map_iff in Hin as (b0 & Heq & _).
    inversion Heq; subst.
    rewrite recorded_le_inf.
    split; [apply count_nonneg | apply count_le_length].
Qed.

(** ** The server: decoding, POST /lookup and POST /compute *)

Lemma logs_only_refl (s : server) : logs_only s s.
Proof.
  repeat split. exists []. now rewrite app_nil_r.
Qed.

Lemma logs_only_emit (s s' : server) (ev : event) :
  logs_only s s' -> logs_only s (snd (emit ev s')).
Proof.
  intros (Hi & Ha & Hm & evs & Ht). cbn. repeat split; try assumption.
  exists (evs ++ [ev]). now rewrite Ht, app_assoc.
Qed.

Lemma or_truthy (a d : value) : truthy d = true -> truthy (Js.or a d) = true.
Proof. unfold Js.or. now destruct (truthy a) eqn:E. Qed.

Ltac finish_decoder :=
  eexists _, _, _; split; [reflexivity|]; split;
  [ try reflexivity; try (apply or_truthy; reflexivity)
  | repeat (apply (logs_only_emit _ _ _)); apply logs_only_refl ].

Lemma decoder_returns `{E : Ethers} `{H : Host} (data : value) (s : server) :
  exists functionName params s',
    decode_call_data data s = (Normal (functionName, params), s') /\
    truthy functionName = true /\
    logs_only s s'.
Proof.
  unfold decode_call_data.
  destruct (has_content data); [|finish_decoder].
  unfold try_catch, mbind, lift, ret.
  destruct data as [| |b|n|d|l|l]; cbn [is_object Js.get]; try finish_decoder.
  destruct (starts_with "0x" d).
  - cbn [emit].
    destruct (abi_decode [TString; TBytes] d) as [decoded|e]; [|finish_decoder].
    destruct (truthy (nth 1 decoded VUndef) && nonempty (nth 1 decoded VUndef));
      [|finish_decoder].
    destruct (toUtf8String (nth 1 decoded VUndef)) as [text|e]; [|finish_decoder].
    cbn [emit].
    destruct (JSON_parse text) as [params|e]; finish_decoder.
  - cbn [emit].
    destruct (JSON_parse d) as [parsed|e]; [|finish_decoder].
    destruct (member "function" parsed) as [f|e]; [|finish_decoder].
    destruct (member "params" parsed) as [p|e]; finish_decoder.
Qed.

(** X18.  Decoding the call data never throws, whatever the data: the
    handler always gets a method and params, the method is never falsy
    (an empty or missing name gives pricefeed), and decoding touches
    neither the limiters nor the metrics. *)
Theorem decoder_total `{E : Ethers} `{H : Host} (data : value) (s : server) :
  exists functionName params,
    fst (decode_call_data data s) = Normal (functionName, params) /\
    truthy functionName = true /\
    logs_only s (snd (decode_call_data data s)).
Proof.
  destruct (decoder_returns data s) as (f & p & s' & Heq & Hf & Hs).
  exists f, p. rewrite Heq.
  split; [reflexivity | split; [exact Hf | exact Hs]].
Qed.

Lemma envelope_path_outcome `{E : Ethers} (w : wallet)
    (body : list (string * value)) (functionName params result : value)
    (clk : clock) (s : server) :
  match envelope_path w body functionName params result clk s with
  | (Normal r, s') =>
      status r = 200 /\
      metrics s' = lookup_recorded functionName clk (metrics s)
  | (Throw _, s') => metrics s' = metrics s
  end.
Proof.
  unfold envelope_path, record_success, mbind, lift, emit, update_metrics, ret.
  destruct (lookup_args body functionName params result clk) as [args|e];
    [|reflexivity].
  destruct (createEnvelope args w) as [envelope|e]; [|reflexivity].
  destruct (abi_encode wire_types (wire_values envelope)) as [hex|e];
    [|reflexivity].
  split; reflexivity.
Qed.

Lemma legacy_path_outcome `{E : Ethers} (w : wallet)
    (functionName result : value) (clk : clock) (s : server) :
  match legacy_path w functionName result clk s with
  | (Normal r, s') =>
      status r = 200 /\
      metrics s' = lookup_recorded functionName clk (metrics s)
  | (Throw _, s') => metrics s' = metrics s
  end.
Proof.
  unfold legacy_path, record_success, mbind, lift, emit, update_metrics, ret.
  unfold signResult.
  destruct (stringify result) as [text|]; cbn [of_option bind];
    [|reflexivity].
  destruct (signData (toUtf8Bytes text) w) as [sg|e]; [|reflexivity].
  destruct (abi_encode legacy_types (legacy_values text sg)) as [hex|e];
    [|reflexivity].
  split; reflexivity.
Qed.

Lemma lookup_try_outcome `{E : Ethers} `{H : Host} (w : wallet)
    (body : list (string * value)) (clk : clock) (s : server) :
  match lookup_try w body clk s with
  | (Normal r, s') =>
      (r = missing_node /\ s' = s) \/
      (status r = 200 /\
       exists functionName params s1,
         decode_call_data (assoc "data" body) s =
           (Normal (functionName, params), s1) /\
         metrics s' = lookup_recorded functionName clk (metrics s))
  | (Throw _, s') => metrics s' = metrics s
  end.
Proof.
  unfold lookup_try.
  destruct (truthy (assoc "node" body)); cbn [negb];
    [|left; split; reflexivity].
  destruct (decoder_returns (assoc "data" body) s)
    as (f & p & s1 & Hdec & _ & _ & _ & Hm & _).
  unfold mbind at 1. rewrite Hdec.
  assert (Hs2 : exists s2,
             metrics s2 = metrics s /\
             (match called f with
              | Some key => emit (ECompute key)
              | None => ret tt
              end) s1 = (Normal tt, s2)).
  { destruct (called f).
    - eexists. split; [|reflexivity]. exact Hm.
    - eexists. split; [|reflexivity]. exact Hm. }
  destruct Hs2 as (s2 & Hm2 & Hemit).
  unfold mbind at 1. rewrite Hemit.
  unfold mbind at 1, lift at 1.
  destruct (executeCompute f p) as [result|e]; [|exact Hm2].
  destruct (not_false (assoc "useEnvelope" body)).
  - pose proof (envelope_path_outcome w body f p result clk s2) as Hout.
    destruct (envelope_path w body f p result clk s2) as [[r|e] s'].
    + right. destruct Hout as [Hst Hrec]. split; [exact Hst|].
      exists f, p, s1. split; [reflexivity|]. now rewrite Hrec, Hm2.
    + now rewrite Hout.
  - pose proof (legacy_path_outcome w f result clk s2) as Hout.
    destruct (legacy_path w f result clk s2) as [[r|e] s'].
    + right. destruct Hout as [Hst Hrec]. split; [exact Hst|].
      exists f, p, s1. split; [reflexivity|]. now rewrite Hrec, Hm2.
    + now rewrite Hout.
Qed.

Lemma lookup_outcome `{E : Ethers} `{H : Host} (w : wallet)
    (body : list (string * value)) (clk : clock) (s : server) :
  match lookup w body clk s with
  | (Normal r, s') =>
      (r = missing_node /\ s' = s) \/
      (status r = 200 /\
       exists functionName params s1,
         decode_call_data (assoc "data" body) s =
           (Normal (functionName, params), s1) /\
         metrics s' = lookup_recorded functionName clk (metrics s))
  | (Throw e, s') =>
      e = mkError "ReferenceError" "functionName is not defined" /\
      metrics s' = metrics s
  end.
Proof.
  pose proof (lookup_try_outcome w body clk s) as Hout.
  unfold lookup, try_catch.
  destruct (lookup_try w body clk s) as [[r|e] s']; [exact Hout|].
  rewrite lookup_catch_throws. now split.
Qed.

Lemma post_lookup_outcome `{E : Ethers} `{H : Host} (w : wallet)
    (req : request) (clk : clock) (s : server) :
  match post_lookup w req clk s with
  | (Normal r, s') =>
      (In (status r) [400; 413; 429] /\ metrics s' = metrics s) \/
      (status r = 200 /\
       exists functionName params s0 s1,
         decode_call_data (assoc "data" (body req)) s0 =
           (Normal (functionName, params), s1) /\
         metrics s' = lookup_recorded functionName clk (metrics s))
  | (Throw e, s') =>
      e = mkError "ReferenceError" "functionName is not defined" /\
      metrics s' = metrics s
  end.
Proof.
  unfold post_lookup.
  destruct (body_limit <? content_length req).
  { left. cbn. tauto. }
  unfold mbind at 1.
  destruct (admits s req clk) eqn:Hadm.
  - destruct (middleware_admitted req clk s Hadm) as (h & s0 & -> & _ & Hm).
    rewrite validateRequest_spec.
    destruct (fst (validate (body req))) as [|e0 es] eqn:Herr.
    + pose proof (lookup_outcome w (snd (validate (body req))) clk s0) as Hout.
      unfold mbind, ret.
      destruct (lookup w (snd (validate (body req))) clk s0) as [[r|e] s'].
      * destruct Hout as [[-> ->] | (Hst & f & p & s1 & Hdec & Hrec)].
        -- left. cbn. tauto.
        -- right. split; [exact Hst|]. exists f, p, s0, s1.
           rewrite validate_keeps in Hdec by discriminate.
           split; [exact Hdec|]. now rewrite Hrec, Hm.
      * destruct Hout as [-> Hm']. split; [reflexivity|]. now rewrite Hm'.
    + left. cbn. tauto.
  - destruct (middleware_denied req clk s Hadm) as (s0 & -> & _ & Hm).
    left. cbn. tauto.
Qed.

(** X19.  A lookup is recorded in the metrics exactly when it is
    answered 200: one successful request of the decoded method, with the
    latency of the handler, and one generated signature are recorded
    then; every other answer, and a handler that fails, leave the metrics
    as they were. *)
Theorem lookup_bookkeeping `{E : Ethers} `{H : Host} (w : wallet)
    (req : request) (clk : clock) (s : server) :
  match post_lookup w req clk s with
  | (Normal r, s') =>
      (status r <> 200 /\ metrics s' = metrics s) \/
      (status r = 200 /\
       exists functionName params s0 s1,
         decode_call_data (assoc "data" (body req)) s0 =
           (Normal (functionName, params), s1) /\
         metrics s' =
           Metrics.recordSignatureGenerated
             (Metrics.recordRequest (to_string functionName) true
                (t_end clk - t_start clk) (metrics s)))
  | (Throw _, s') => metrics s' = metrics s
  end.
Proof.
  pose proof (post_lookup_outcome w req clk s) as Hout.
  destruct (post_lookup w req clk s) as [[r|e] s']; [|tauto].
  destruct Hout as [[Hst Hm] | Hok]; [left | right; exact Hok].
  split; [|exact Hm]. cbn in Hst. lia.
Qed.

(** X20.  POST /lookup never answers 500 and never counts an error: its
    answers are 200, 400, 413 and 429, a failure inside the handler ends
    in a ReferenceError thrown from the catch block, which rejects the
    promise of the handler, and the error counter of the metrics is the
    same after every request. *)
Theorem lookup_reports_no_failure `{E : Ethers} `{H : Host} (w : wallet)
    (req : request) (clk : clock) (s : server) :
  match post_lookup w req clk s with
  | (Normal r, s') =>
      In (status r) [200; 400; 413; 429] /\
      Metrics.errors (metrics s') = Metrics.errors (metrics s)
  | (Throw e, s') =>
      e = mkError "ReferenceError" "functionName is not defined" /\
      Metrics.errors (metrics s') = Metrics.errors (metrics s)
  end.
Proof.
  pose proof (post_lookup_outcome w req clk s) as Hout.
  destruct (post_lookup w req clk s) as [[r|e] s'].
  - destruct Hout as [[Hst ->] | (Hst & f & p & s0 & s1 & _ & ->)].
    + split; [|reflexivity]. cbn in Hst |- *. tauto.
    + split; [|reflexivity]. rewrite Hst. now left.
  - destruct Hout as [-> ->]. now split.
Qed.

Lemma compute_try_outcome `{E : Ethers} `{H : Host} (w : wallet)
    (body : list (string * value)) (s : server) :
  exists s',
    logs_only s s' /\
    snd (compute_try w body s) = s' /\
    match fst (compute_try w body s) with
    | Normal r =>
        (truthy (assoc "function" body) = false /\ r = missing_function) \/
        (truthy (assoc "function" body) = true /\
         exists result signature,
           executeCompute (assoc "function" body)
             (Js.or (assoc "params" body) (VObj [])) = Normal result /\
           signResult result w = Normal signature /\
           r = mkResponse 200 []
                 (VObj [ ("result", result);
                         ("signature", VStr signature);
                         ("signer", VStr (wallet_address w)) ]))
    | Throw e =>
        truthy (assoc "function" body) = true /\
        (executeCompute (assoc "function" body)
           (Js.or (assoc "params" body) (VObj [])) = Throw e \/
         exists result,
           executeCompute (assoc "function" body)
             (Js.or (assoc "params" body) (VObj [])) = Normal result /\
           signResult result w = Throw e)
    end.
Proof.
  unfold compute_try.
  destruct (truthy (assoc "function" body)) eqn:Hf; cbn [negb].
  2:{ exists s. split; [apply logs_only_refl|]. split; [reflexivity|].
      left. now split. }
  unfold mbind, lift, ret.
  set (f := assoc "function" body).
  set (p := Js.or (assoc "params" body) (VObj [])).
  assert (Hs1 : exists s1,
             logs_only s s1 /\
             (match called f with
              | Some key => emit (ECompute key)
              | None => fun s0 => (Normal tt, s0)
              end) s = (Normal tt, s1)).
  { destruct (called f).
    - eexists. split; [|reflexivity].
      apply (logs_only_emit s s). apply logs_only_refl.
    - eexists. split; [|reflexivity]. apply logs_only_refl. }
  destruct Hs1 as (s1 & Hl1 & ->).
  destruct (executeCompute f p) as [result|e] eqn:Hexec.
  2:{ exists s1. split; [exact Hl1|]. split; [reflexivity|]. cbn. tauto. }
  unfold signResult.
  destruct (stringify result) as [text|] eqn:Htext; cbn [of_option bind].
  - cbn [emit].
    destruct (signData (toUtf8Bytes text) w) as [sg|e] eqn:Hsg.
    + eexists. split; [|split; [reflexivity|]].
      * apply (logs_only_emit s s1). exact Hl1.
      * cbn [fst]. right. split; [reflexivity|]. exists result, sg.
        unfold signResult. rewrite Htext. cbn [of_option bind].
        now repeat split.
    + eexists. split; [|split; [reflexivity|]].
      * apply (logs_only_emit s s1). exact Hl1.
      * cbn [fst]. split; [reflexivity|]. right. exists result.
        unfold signResult. rewrite Htext. cbn [of_option bind].
        now split.
  - exists s1. split; [exact Hl1|]. split; [reflexivity|]. cbn [fst].
    split; [reflexivity|]. right. exists result.
    unfold signResult. rewrite Htext. now split.
Qed.

Lemma compute_route_outcome `{E : Ethers} `{H : Host} (w : wallet)
    (body : list (string * value)) (s : server) :
  exists r s',
    compute_route w body s = (Normal r, s') /\
    logs_only s s' /\
    match fst (compute_try w body s) with
    | Normal r0 => r = r0
    | Throw e => r = mkResponse 500 [] (VObj [ ("error", VStr (err_message e)) ])
    end.
Proof.
  destruct (compute_try_outcome w body s) as (s1 & Hl & Hs & _).
  unfold compute_route, try_catch.
  destruct (compute_try w body s) as [[r|e] s0]; cbn [fst snd] in *; subst s0.
  - exists r, s1. split; [reflexivity|]. split; [exact Hl | reflexivity].
  - eexists _, _. split; [reflexivity|]. split; [|reflexivity].
    unfold compute_catch, mbind, ret.
    apply (logs_only_emit s s1). exact Hl.
Qed.

Lemma post_compute_outcome `{E : Ethers} `{H : Host} (w : wallet)
    (req : request) (clk : clock) (s : server) :
  exists r s',
    post_compute w req clk s = (Normal r, s') /\
    metrics s' = metrics s /\
    (In (status r) [400; 413; 429] \/
     exists h body' s0,
       validateRequest (body req) = Next body' /\
       r = with_headers h
             (match fst (compute_try w body' s0) with
              | Normal r0 => r0
              | Throw e =>
                  mkResponse 500 []
                    (VObj [ ("error", VStr (err_message e)) ])
              end)).
Proof.
  unfold post_compute.
  destruct (body_limit <? content_length req).
  { eexists _, _. split; [reflexivity|]. split; [reflexivity|].
    left. cbn. tauto. }
  unfold mbind at 1.
  destruct (admits s req clk) eqn:Hadm.
  - destruct (middleware_admitted req clk s Hadm) as (h & s0 & -> & _ & Hm).
    destruct (validateRequest (body req)) as [r|body'] eqn:Hval.
    + rewrite validateRequest_spec in Hval.
      destruct (fst (validate (body req))); [discriminate|].
      inversion Hval; subst r.
      eexists _, _. split; [reflexivity|]. split; [exact Hm|].
      left. cbn. tauto.
    + destruct (compute_route_outcome w body' s0)
        as (r & s' & Hr & (_ & _ & Hm' & _) & Hshape).
      unfold mbind, ret. rewrite Hr.
      eexists _, _. split; [reflexivity|]. split; [now rewrite Hm', Hm|].
      right. exists h, body', s0. split; [reflexivity|].
      f_equal. now destruct (fst (compute_try w body' s0)).
  - destruct (middleware_denied req clk s Hadm) as (s0 & -> & _ & Hm).
    eexists _, _. split; [reflexivity|]. split; [exact Hm|].
    left. cbn. tauto.
Qed.

(** X21.  POST /compute always writes a response, with one of the
    statuses 200, 400, 413, 429 and 500: the promise of its handler is
    never rejected, whatever the request and whatever the compute
    function or the signer does.  The route records nothing in the
    metrics. *)
Theorem compute_always_answers `{E : Ethers} `{H : Host} (w : wallet)
    (req : request) (clk : clock) (s : server) :
  exists r,
    fst (post_compute w req clk s) = Normal r /\
    In (status r) [200; 400; 413; 429; 500] /\
    metrics (snd (post_compute w req clk s)) = metrics s.
Proof.
  destruct (post_compute_outcome w req clk s) as (r & s' & Heq & Hm & Hr).
  exists r. rewrite Heq. split; [reflexivity|]. split; [|exact Hm].
  destruct Hr as [Hst | (h & body' & s0 & _ & ->)].
  - cbn in Hst |- *. tauto.
  - destruct (compute_try_outcome w body' s0) as (s1 & _ & _ & Hshape).
    destruct (fst (compute_try w body' s0)) as [r0|e].
    + destruct Hshape as [[_ ->] | (_ & result & sg & _ & _ & ->)];
        cbn; tauto.
    + cbn. tauto.
Qed.





(** The name constructor is not registered, and is answered: with the
    stand-in for [Object], which returns the params. *)
Example inherited_function_answered :
  exists h signature,
    fst (@post_compute Sample.ethers Sample.host tt Fixture.inherited_request
           Sample.now initial) =
      Normal
        (mkResponse 200 h
           (VObj [ ("result", VObj [ ("daoId", VStr "uniswap") ]);
                   ("signature", VStr signature);
                   ("signer", VStr Sample.address) ])).
Proof. eexists _, _. vm_compute. reflexivity. Qed.

(** ** The limiter admits exactly below the limit *)

Lemma after_call (k : option string) (l : RateLimiter.t) (c : limiter_call) :
  after l (Call c) = snd (limiter_step k l c).
Proof.
  destruct c as [key now|key now|now]; cbn [after limiter_step];
    [|reflexivity|reflexivity].
  now destruct (RateLimiter.check l key now).
Qed.

Lemma admitted_cons (k : option string) (l : RateLimiter.t)
    (c : limiter_call) (r : list limiter_call) :
  admitted k l (c :: r) =
    fst (limiter_step k l c) ++ admitted k (snd (limiter_step k l c)) r.
Proof. cbn [admitted]. now destruct (limiter_step k l c). Qed.

Lemma consistent_after (w n : Z) (k : option string) (now : Z) :
  0 <= w ->
  forall (calls : list limiter_call) (l : RateLimiter.t) (chron : list Z)
         (T : Z),
    consistent w n k l chron T ->
    monotone T (calls ++ [Check k now]) = true ->
    exists T',
      T' <= now /\
      consistent w n k (run_limiter l (map Call calls))
        (chron ++ admitted k l calls) T'.
Proof.
  intros Hw. induction calls as [|c r IH]; intros l chron T Hc Hmono.
  - exists T. cbn in Hmono |- *. rewrite app_nil_r. split; [lia | exact Hc].
  - cbn [app monotone] in Hmono. apply andb_true_iff in Hmono as [HT Hr].
    apply Z.leb_le in HT.
    pose proof (consistent_step w n k Hw l chron T c Hc HT) as Hstep.
    destruct (IH _ _ _ Hstep Hr) as (T' & HT' & Hcons).
    exists T'. split; [exact HT'|].
    cbn [map]. unfold run_limiter in *. cbn [fold_left].
    rewrite (after_call k), admitted_cons, app_assoc. exact Hcons.
Qed.

(** X24.  The limiter admits exactly below the limit.  After any calls
    of [check], [remaining] and [cleanup] on a new limiter, timed by a
    clock that does not go backwards, a request of a key is admitted if
    and only if fewer than [maxRequests] requests of that key were
    admitted at times not earlier than [now - windowMs]: a request is
    never refused while the client is below its quota. *)
Theorem admission_exact (w n : Z) (k : option string) (start now : Z)
    (calls : list limiter_call) :
  0 <= w ->
  monotone start (calls ++ [Check k now]) = true ->
  (fst (RateLimiter.check
          (run_limiter (RateLimiter.mk w n ∅) (map Call calls)) k now) = true
   <->
   Z.of_nat (length (kept (now - w)
                       (admitted k (RateLimiter.mk w n ∅) calls))) < n).
Proof.
  intros Hw Hmono.
  destruct (consistent_after w n k now Hw calls (RateLimiter.mk w n ∅) []
              start (consistent_empty w n k start) Hmono)
    as (T' & HT' & Hcons).
  cbn [app] in Hcons.
  pose proof (evict_consistent w n k _ _ T' now Hcons HT') as Hev.
  destruct Hcons as (Hwin & Hmax & _).
  rewrite check_answer, Hwin, Hmax, Hev.
  destruct (n <=? _) eqn:E; cbn [negb].
  - apply Z.leb_le in E. split; [discriminate | lia].
  - apply Z.leb_gt in E. split; [intros _; exact E | reflexivity].
Qed.

Lemma admission_exact_witness :
  fst (RateLimiter.check
         (run_limiter (RateLimiter.mk 60000 2 ∅)
            (map Call [Check (Some "a") 10; Check (Some "a") 20]))
         (Some "a") 30) = true
  <->
  Z.of_nat (length (kept (30 - 60000)
                      (admitted (Some "a") (RateLimiter.mk 60000 2 ∅)
                         [Check (Some "a") 10; Check (Some "a") 20]))) < 2.
Proof.
  apply (admission_exact 60000 2 (Some "a") 0 30
           [Check (Some "a") 10; Check (Some "a") 20]).
  - lia.
  - reflexivity.
Defined.

(** ** Returned envelopes verify *)

Lemma lookup_try_envelope `{E : Ethers} `{H : Host} (w : wallet)
    (body : list (string * value)) (clk : clock) (s s' : server)
    (r : response) :
  lookup_try w body clk s = (Normal r, s') ->
  Js.get "envelope" (json r) <> VUndef ->
  exists args e,
    createEnvelope args w = Normal e /\
    Js.get "envelope" (json r) = envelope_value e.
Proof.
  unfold lookup_try.
  destruct (truthy (assoc "node" body)); cbn [negb].
  2:{ unfold ret. intros Heq. inversion Heq. now intros []. }
  destruct (decoder_returns (assoc "data" body) s)
    as (f & p & s1 & Hdec & _).
  unfold mbind at 1. rewrite Hdec.
  unfold mbind at 1.
  destruct ((match called f with
             | Some key => emit (ECompute key)
             | None => ret tt
             end) s1) as [[[]|e0] s2] eqn:Hemit.
  2:{ destruct (called f); discriminate. }
  unfold mbind at 1, lift at 1.
  destruct (executeCompute f p) as [result|e0]; [|discriminate].
  destruct (not_false (assoc "useEnvelope" body)).
  - intros Hpath Henv.
    destruct (envelope_path_inv w _ _ _ _ clk s2 s' r Hpath)
      as (args & e & hex & _ & Hbuild & _ & ->).
    now exists args, e.
  - intros Hpath Henv.
    destruct (legacy_path_inv w _ _ clk s2 s' r Hpath)
      as (text & sg & hex & _ & _ & _ & ->).
    now contradiction Henv.
Qed.

(** X25.  Every envelope that POST /lookup returns is accepted by
    [verifyEnvelope] for the address of the gateway's wallet. *)
Theorem returned_envelope_verifies `{E : Ethers} {L : EthersLaws E}
    {V : Verifier E} {VL : VerifierLaws E V} `{H : Host} (w : wallet)
    (req : request) (clk : clock) (s s' : server) (r : response) :
  post_lookup w req clk s = (Normal r, s') ->
  Js.get "envelope" (json r) <> VUndef ->
  exists e : Envelope.t,
    Js.get "envelope" (json r) = envelope_value e /\
    verifyEnvelope e (VStr (wallet_address w)) = Normal true.
Proof.
  intros Hrun Henv. unfold post_lookup, mbind in Hrun.
  destruct (body_limit <? content_length req).
  { unfold ret in Hrun. injection Hrun as <- _. now contradiction Henv. }
  destruct (rateLimitMiddleware req clk s) as [[[resp|h]|e] s0] eqn:Hmw;
    [| |discriminate].
  { unfold rateLimitMiddleware in Hmw.
    destruct (RateLimiter.check _ _ _) as [[|] l'] in Hmw.
    - destruct (RateLimiter.remaining _ _ _) in Hmw. discriminate.
    - injection Hmw as <- _. unfold ret in Hrun. injection Hrun as <- _.
      now contradiction Henv. }
  rewrite validateRequest_spec in Hrun.
  destruct (fst (validate (body req))) as [|err errors].
  2:{ unfold ret in Hrun. injection Hrun as <- _. now contradiction Henv. }
  destruct (lookup w (snd (validate (body req))) clk s0) as [[r0|e] s1]
    eqn:Hlookup; [|discriminate].
  unfold ret in Hrun. injection Hrun as <- <-.
  apply lookup_normal in Hlookup.
  cbn [with_headers json] in Henv |- *.
  destruct (lookup_try_envelope w _ clk s0 s1 r0 Hlookup Henv)
    as (args & e & Hbuild & Heq).
  exists e. split; [exact Heq|]. now apply (created_verifies args).
Qed.

Lemma returned_envelope_verifies_witness :
  exists e : Envelope.t,
    Js.get "envelope" (json Sample.price_response) = envelope_value e /\
    @verifyEnvelope Sample.ethers Fixture.verifier e
      (VStr (@wallet_address Sample.ethers tt)) = Normal true.
Proof.
  apply (@returned_envelope_verifies Sample.ethers sample_laws
           Fixture.verifier fixture_laws Sample.host tt Sample.price_lookup
           Sample.now initial Sample.after_price_lookup
           Sample.price_response).
  - vm_compute. reflexivity.
  - vm_compute. discriminate.
Defined.

(** ** The contract accepts what the gateway signs *)

Lemma signature_bytes_parts (sg : Signature) :
  length (sig_r sg) = 32%nat -> length (sig_s sg) = 32%nat ->
  sig_v sg = 27 \/ sig_v sg = 28 ->
  take 32 (signature_bytes sg) = sig_r sg /\
  take 32 (drop 32 (signature_bytes sg)) = sig_s sg /\
  Z.of_N (Byte.to_N (nth 64 (signature_bytes sg) x00)) = sig_v sg.
Proof.
  intros Hr Hs Hv. unfold signature_bytes. split; [|split].
  - now rewrite take_app_length' by (symmetry; exact Hr).
  - rewrite drop_app_length' by (symmetry; exact Hr).
    now rewrite take_app_length' by (symmetry; exact Hs).
  - rewrite app_assoc. rewrite app_nth2; rewrite length_app, Hr, Hs; [|lia].
    destruct Hv as [-> | ->]; reflexivity.
Qed.

(** X26.  What [signData] returns for some data is accepted by the
    contract [Verifier] for the address of the wallet: the two sides hash
    the data and the prefix alike and agree on the layout r, s, v of the
    65 bytes.  The contract reverts on a signature of another length and
    never accepts the zero address as the signer. *)
Theorem verifier_accepts_signData `{E : Ethers} {L : EthersLaws E}
    {C : Evm E} {CL : EvmLaws E C} (w : wallet) (dataBytes : bytes) :
  (exists signature : bytes,
     signData dataBytes w = Normal (Hex.hexlify signature) /\
     Verifier.verify dataBytes signature (account w) = Normal true) /\
  (forall data signature signer,
     length signature <> 65%nat ->
     exists e, Verifier.verify data signature signer = Throw e) /\
  (forall data signature,
     Verifier.verify data signature 0 <> Normal true).
Proof.
  split; [|split].
  - set (mh := keccak256 (toUtf8Bytes eip191_prefix ++ keccak256 dataBytes)).
    assert (Hmh : length mh = 32%nat) by apply keccak256_length.
    exists (signature_bytes (signingKey_sign w mh)). split.
    + unfold signData. rewrite eip191_hash_hexlify. cbn [bind].
      now apply serialize_signed.
    + unfold Verifier.verify.
      rewrite (signature_bytes_length w mh Hmh). cbn [Nat.eqb negb].
      fold mh.
      destruct (signature_bytes_parts (signingKey_sign w mh)
                  (sign_r_length w mh Hmh) (sign_s_length w mh Hmh)
                  (sign_v_range w mh Hmh)) as (-> & -> & ->).
      rewrite (ecrecover_signed w mh Hmh), Z.eqb_refl.
      pose proof (account_nonzero w) as Hnz.
      assert ((account w =? 0) = false) as -> by lia. reflexivity.
  - intros data signature signer Hlen. unfold Verifier.verify.
    assert ((length signature =? 65)%nat = false) as ->
      by now apply Nat.eqb_neq.
    cbn [negb]. eauto.
  - intros data signature. unfold Verifier.verify.
    destruct (negb _); [discriminate|].
    destruct (ecrecover _ _ _ _ =? 0); cbn [negb andb]; discriminate.
Qed.

Lemma fixture_evm_laws : EvmLaws Sample.ethers Fixture.evm.
Proof. split; [reflexivity | discriminate]. Qed.

Lemma verifier_accepts_signData_witness :
  (exists signature : bytes,
     @signData Sample.ethers (toUtf8Bytes "{}") tt
       = Normal (Hex.hexlify signature) /\
     @Verifier.verify Sample.ethers Fixture.evm (toUtf8Bytes "{}") signature
       (@account Sample.ethers Fixture.evm tt) = Normal true) /\
  (forall data signature signer,
     length signature <> 65%nat ->
     exists e,
       @Verifier.verify Sample.ethers Fixture.evm data signature signer
         = Throw e) /\
  (forall data signature,
     @Verifier.verify Sample.ethers Fixture.evm data signature 0
       <> Normal true).
Proof.
  exact (@verifier_accepts_signData Sample.ethers sample_laws Fixture.evm
           fixture_evm_laws tt (toUtf8Bytes "{}")).
Defined.

(** ** The billing contract *)

Lemma require_inv (condition : bool) (message : string) (u : unit) :
  Billing.require condition message = Normal u -> condition = true.
Proof. unfold Billing.require. now destruct condition. Qed.

(** X27.  A subscription gives access for its period: after a call of
    [subscribe] that does not revert, [hasAccess] is true for the
    subscriber and the node at every time from the block of the call to
    less than [period] seconds later, whether the call created the
    subscription or renewed it. *)
Theorem subscription_grants_access (o : Billing.outcomes) (c : Billing.call)
    (node period : Z) (st st' : Billing.t) (effects : list Billing.effect)
    (t : Z) :
  Billing.subscribe o c node period st = Normal (st', effects) ->
  Billing.block_timestamp c <= t < Billing.block_timestamp c + period ->
  Billing.hasAccess st' node (Billing.sender c) t = true.
Proof.
  unfold Billing.subscribe. intros Hrun Ht.
  destruct (Billing.require (0 <? default 0 (Billing.prices st !! node)) _)
    as [[]|e] eqn:Hprice; [|discriminate].
  apply require_inv in Hprice. cbn [bind] in Hrun.
  destruct (Billing.checked_mul _ _) as [totalAmount|e]; [|discriminate].
  cbn [bind] in Hrun.
  destruct (Billing.collect o c _ totalAmount) as [paid|e]; [|discriminate].
  cbn [bind] in Hrun.
  unfold Billing.hasAccess.
  set (sub := default Billing.Subscription.zero
                (Billing.subscriptions st !! (Billing.sender c, node))) in *.
  destruct (Billing.Subscription.active sub &&
            (Billing.block_timestamp c <? Billing.Subscription.endTime sub))
    eqn:Hactive in Hrun.
  - unfold Billing.checked_add in Hrun.
    destruct (_ <=? Billing.uint256_max) in Hrun; [|discriminate].
    cbn [bind] in Hrun. inversion Hrun; subst st' effects. clear Hrun.
    cbn [Billing.prices Billing.subscriptions].
    assert ((default 0 (Billing.prices st !! node) =? 0) = false) as ->
      by lia.
    rewrite lookup_insert_eq.
    cbn [default from_option id Billing.Subscription.active
         Billing.Subscription.endTime].
    apply andb_true_iff in Hactive as [-> Hend].
    cbn [andb].
    assert ((t <? Billing.Subscription.endTime sub + period) = true) as ->
      by lia.
    reflexivity.
  - unfold Billing.checked_add in Hrun.
    destruct (_ <=? Billing.uint256_max) in Hrun; [|discriminate].
    cbn [bind] in Hrun. inversion Hrun; subst st' effects. clear Hrun.
    cbn [Billing.prices Billing.subscriptions].
    assert ((default 0 (Billing.prices st !! node) =? 0) = false) as ->
      by lia.
    rewrite lookup_insert_eq.
    cbn [default from_option id Billing.Subscription.active
         Billing.Subscription.endTime andb].
    assert ((t <? Billing.block_timestamp c + period) = true) as -> by lia.
    reflexivity.
Qed.

Lemma subscription_grants_access_witness :
  Billing.hasAccess Fixture.subscribed 1 (Billing.sender Fixture.visit) 2000
    = true.
Proof.
  apply (subscription_grants_access Fixture.calm Fixture.visit 1 3600
           Fixture.billing Fixture.subscribed
           [Billing.SubscriptionCreated 7 1 100 3600] 2000).
  - vm_compute. reflexivity.
  - unfold Fixture.visit. cbn [Billing.block_timestamp]. lia.
Defined.

(** X28.  A payment for a single call is recorded and gives no access:
    after a call of [payForCall] that does not revert, the price of the
    node (which is not zero) has been added to the payments, and
    [hasAccess] answers for every node, caller and time as it did
    before. *)
Theorem payment_grants_no_access (o : Billing.outcomes) (c : Billing.call)
    (node : Z) (method : string) (st st' : Billing.t)
    (effects : list Billing.effect) :
  Billing.payForCall o c node method st = Normal (st', effects) ->
  0 < default 0 (Billing.prices st !! node) /\
  Billing.payments st' =
    Billing.payments st ++
    [Billing.Payment.mk (Billing.sender c) node method
       (default 0 (Billing.prices st !! node)) (Billing.block_timestamp c)
       true] /\
  (forall n caller t,
     Billing.hasAccess st' n caller t = Billing.hasAccess st n caller t).
Proof.
  unfold Billing.payForCall. intros Hrun.
  destruct (Billing.require (0 <? default 0 (Billing.prices st !! node)) _)
    as [[]|e] eqn:Hprice; [|discriminate].
  apply require_inv in Hprice. cbn [bind] in Hrun.
  destruct (Billing.collect o c _ _) as [paid|e]; [|discriminate].
  cbn [bind] in Hrun. inversion Hrun; subst st' effects. clear Hrun.
  split; [lia|]. split; reflexivity.
Qed.

Lemma payment_grants_no_access_witness :
  0 < default 0 (Billing.prices Fixture.billing !! 1) /\
  Billing.payments
    (Billing.mk {[ 1 := 100 ]} ∅
       [Billing.Payment.mk 7 1 "pricefeed" 100 1000 true]
       {[ 7 := [0] ]} ∅) =
    Billing.payments Fixture.billing ++
    [Billing.Payment.mk (Billing.sender Fixture.paid_visit) 1 "pricefeed"
       (default 0 (Billing.prices Fixture.billing !! 1))
       (Billing.block_timestamp Fixture.paid_visit) true] /\
  (forall n caller t,
     Billing.hasAccess
       (Billing.mk {[ 1 := 100 ]} ∅
          [Billing.Payment.mk 7 1 "pricefeed" 100 1000 true]
          {[ 7 := [0] ]} ∅) n caller t =
     Billing.hasAccess Fixture.billing n caller t).
Proof.
  apply (payment_grants_no_access Fixture.calm Fixture.paid_visit 1
           "pricefeed" Fixture.billing _
           [Billing.PaymentReceived 7 1 "pricefeed" 100]).
  vm_compute. reflexivity.
Defined.

(** X29.  A subscription of less than a day costs nothing: the amount
    due is the price times the whole days of the period, so on a priced
    endpoint paid in ether a first [subscribe] with a period below 86400
    seconds and no value sent succeeds, moves no funds, and gives access
    for the period. *)
Theorem short_subscription_free (o : Billing.outcomes) (c : Billing.call)
    (node period price : Z) (st : Billing.t) :
  Billing.prices st !! node = Some price -> 0 < price ->
  default 0 (Billing.paymentTokens st !! node) = 0 ->
  0 <= period < 86400 ->
  Billing.value c = 0 ->
  Billing.block_timestamp c + period <= Billing.uint256_max ->
  Billing.subscriptions st !! (Billing.sender c, node) = None ->
  exists st',
    Billing.subscribe o c node period st =
      Normal (st',
              [Billing.SubscriptionCreated (Billing.sender c) node price
                 period]) /\
    forall t,
      Billing.block_timestamp c <= t < Billing.block_timestamp c + period ->
      Billing.hasAccess st' node (Billing.sender c) t = true.
Proof.
  intros Hprice Hpos Htoken Hperiod Hvalue Hend Hnew.
  assert (Hrun : exists st',
             Billing.subscribe o c node period st =
               Normal (st',
                       [Billing.SubscriptionCreated (Billing.sender c) node
                          price period])).
  { unfold Billing.subscribe. rewrite Hprice, Htoken, Hnew.
    cbn [default from_option id]. unfold Billing.require.
    assert ((0 <? price) = true) as -> by lia. cbn [bind].
    rewrite (Z.div_small period 86400) by lia.
    unfold Billing.checked_mul. rewrite Z.mul_0_r.
    change (0 <=? Billing.uint256_max) with true. cbn [bind].
    unfold Billing.collect, Billing.require. rewrite Hvalue.
    cbn [Z.eqb Z.leb Z.ltb Z.compare bind].
    cbn [Billing.Subscription.active Billing.Subscription.zero andb].
    unfold Billing.checked_add.
    assert ((Billing.block_timestamp c + period <=? Billing.uint256_max)
            = true) as -> by lia.
    cbn [bind app]. eexists. reflexivity. }
  destruct Hrun as (st' & Hrun). exists st'. split; [exact Hrun|].
  intros t Ht. revert Hrun Ht. unfold Billing.subscribe.
  rewrite Hprice, Htoken, Hnew. cbn [default from_option id]. unfold Billing.require.
  assert ((0 <? price) = true) as -> by lia. cbn [bind].
  destruct (Billing.checked_mul _ _) as [totalAmount|e]; [|discriminate].
  cbn [bind].
  destruct (Billing.collect o c 0 totalAmount) as [paid|e]; [|discriminate].
  cbn [bind Billing.Subscription.active Billing.Subscription.zero andb].
  unfold Billing.checked_add.
  destruct (_ <=? Billing.uint256_max); [|discriminate].
  cbn [bind]. intros Heq Ht. inversion Heq; subst st'. clear Heq.
  unfold Billing.hasAccess. cbn [Billing.prices Billing.subscriptions].
  rewrite Hprice, lookup_insert_eq.
  cbn [default from_option id Billing.Subscription.active
       Billing.Subscription.endTime andb].
  assert ((price =? 0) = false) as -> by lia.
  assert ((t <? Billing.block_timestamp c + period) = true) as -> by lia.
  reflexivity.
Qed.

Lemma short_subscription_free_witness :
  exists st',
    Billing.subscribe Fixture.calm Fixture.visit 1 3600 Fixture.billing =
      Normal (st',
              [Billing.SubscriptionCreated (Billing.sender Fixture.visit) 1
                 100 3600]) /\
    forall t,
      Billing.block_timestamp Fixture.visit <= t
        < Billing.block_timestamp Fixture.visit + 3600 ->
      Billing.hasAccess st' 1 (Billing.sender Fixture.visit) t = true.
Proof.
  apply (short_subscription_free Fixture.calm Fixture.visit 1 3600 100
           Fixture.billing).
  - reflexivity.
  - lia.
  - reflexivity.
  - lia.
  - reflexivity.
  - vm_compute. discriminate.
  - reflexivity.
Defined.
